(** * A shallow embedding of the LangGraph support agent

    The development follows the service layer of the repository:

    - [app/mcp/clients.py]                 (module [Clients])
    - [app/abilities/implementations.py]   (module [Abilities])
    - [app/agent/stage_def.py], [app/agent/agent.py]  (module [Agent])

    Python values are embedded as a JSON-like inductive type, dictionaries
    as insertion-ordered association lists, exceptions as a sum type and
    the asynchronous handlers as functions in a state-and-error monad.
    Everything the program cannot decide by itself (replies of the remote
    services, the random generator, the clock, the database) is read from
    an explicit environment. *)

From Stdlib Require Import ZArith List String Ascii Bool Lia Permutation.
From Stdlib Require Import DecimalString.
Import ListNotations.

#[local] Set Warnings "-register-all".

Local Open Scope string_scope.
Local Open Scope Z_scope.

(** ** Python values and built-ins *)

Module Py.

(** JSON-shaped Python values.  Numbers are integers: fractional numbers
    are outside the model.  Text is ASCII. *)
Inductive value : Type :=
| VNone
| VBool (b : bool)
| VInt (n : Z)
| VStr (s : string)
| VList (xs : list value)
| VDict (kvs : list (string * value)).

(** A [dict] keeps its keys in insertion order, each key once. *)
Definition dict : Type := list (string * value).

Fixpoint dict_get (k : string) (d : dict) : option value :=
  match d with
  | [] => None
  | (k', v) :: d' => if String.eqb k k' then Some v else dict_get k d'
  end.

(** [d[k] = v]: an existing key keeps its position. *)
Fixpoint dict_set (k : string) (v : value) (d : dict) : dict :=
  match d with
  | [] => [(k, v)]
  | (k', v') :: d' =>
      if String.eqb k k' then (k, v) :: d' else (k', v') :: dict_set k v d'
  end.

(** [d.update(other)] for a mapping [other]. *)
Definition dict_update (d other : dict) : dict :=
  fold_left (fun acc kv => dict_set (fst kv) (snd kv) acc) other d.

(** Exceptions that the modelled code raises or lets through. *)
Inductive exn : Type :=
| TransportError (msg : string)   (* httpx.TransportError and its subclasses *)
| RequestError (msg : string)     (* the other subclasses of httpx.RequestError *)
| MCPClientError (msg : string)   (* app.mcp.clients.MCPClientError *)
| JSONDecodeError (msg : string)
| TypeError (msg : string)
| AttributeError (msg : string)
| KeyError (key : value)
| IndexError (msg : string)
| ValueError (msg : string)
| RuntimeError (msg : string).

Inductive result (A : Type) : Type :=
| Ok (a : A)
| Raise (e : exn).
Arguments Ok {A} a.
Arguments Raise {A} e.

Definition type_name (v : value) : string :=
  match v with
  | VNone => "NoneType"
  | VBool _ => "bool"
  | VInt _ => "int"
  | VStr _ => "str"
  | VList _ => "list"
  | VDict _ => "dict"
  end.

Definition no_attribute (v : value) (attr : string) : exn :=
  AttributeError ("'" ++ type_name v ++ "' object has no attribute '" ++ attr ++ "'").

(** Truth value of an object, as tested by [if], [or] and [not]. *)
Definition truthy (v : value) : bool :=
  match v with
  | VNone => false
  | VBool b => b
  | VInt n => negb (n =? 0)
  | VStr s => negb (String.eqb s "")
  | VList xs => match xs with [] => false | _ => true end
  | VDict kvs => match kvs with [] => false | _ => true end
  end.

(** [a or b] *)
Definition py_or (a b : value) : value := if truthy a then a else b.

(** [v.get(k, default)] *)
Definition get (v : value) (k : string) (default : value) : result value :=
  match v with
  | VDict d => Ok (match dict_get k d with Some x => x | None => default end)
  | _ => Raise (no_attribute v "get")
  end.

(** [v[k]] for a string key *)
Definition getitem (v : value) (k : string) : result value :=
  match v with
  | VDict d => match dict_get k d with Some x => Ok x | None => Raise (KeyError (VStr k)) end
  | VStr _ => Raise (TypeError "string indices must be integers")
  | VList _ => Raise (TypeError "list indices must be integers or slices, not str")
  | _ => Raise (TypeError ("'" ++ type_name v ++ "' object is not subscriptable"))
  end.

(** [v[k] = x] for a string key; the result is the updated container. *)
Definition setitem (v : value) (k : string) (x : value) : result value :=
  match v with
  | VDict d => Ok (VDict (dict_set k x d))
  | VList _ => Raise (TypeError "list indices must be integers or slices, not str")
  | _ => Raise (TypeError ("'" ++ type_name v ++ "' object does not support item assignment"))
  end.

(** [v.update(other)] for a mapping [other].  For any other argument the
    model raises [TypeError], as Python does for [None], booleans and
    numbers; that Python reads a list or a string as a sequence of
    key/value pairs is outside the model. *)
Definition update (v other : value) : result value :=
  match v with
  | VDict d =>
      match other with
      | VDict o => Ok (VDict (dict_update d o))
      | _ => Raise (TypeError ("'" ++ type_name other ++ "' object is not iterable"))
      end
  | _ => Raise (no_attribute v "update")
  end.

(** Looking up the method [update] or [append] on an object, which Python
    does before it evaluates the arguments of the call. *)
Definition has_update (v : value) : result unit :=
  match v with
  | VDict _ => Ok tt
  | _ => Raise (no_attribute v "update")
  end.

Definition has_append (v : value) : result unit :=
  match v with
  | VList _ => Ok tt
  | _ => Raise (no_attribute v "append")
  end.

(** [v.append(x)] *)
Definition append (v x : value) : result value :=
  match v with
  | VList xs => Ok (VList (xs ++ [x]))
  | _ => Raise (no_attribute v "append")
  end.

(** [v[-1]] *)
Definition last_item (v : value) : result value :=
  match v with
  | VList xs => match rev xs with
                | x :: _ => Ok x
                | [] => Raise (IndexError "list index out of range")
                end
  | VStr s => match rev (list_ascii_of_string s) with
              | c :: _ => Ok (VStr (String c EmptyString))
              | [] => Raise (IndexError "string index out of range")
              end
  | VDict _ => Raise (KeyError (VInt (-1)))
  | _ => Raise (TypeError ("'" ++ type_name v ++ "' object is not subscriptable"))
  end.

(** [{first, **v}]: a dictionary display that unpacks the mapping [v]
    after its own entries. *)
Definition unpack_into (first : dict) (v : value) : result value :=
  match v with
  | VDict d => Ok (VDict (dict_update first d))
  | _ => Raise (TypeError ("'" ++ type_name v ++ "' object is not a mapping"))
  end.

(** [len(v)] *)
Definition len (v : value) : result Z :=
  match v with
  | VStr s => Ok (Z.of_nat (String.length s))
  | VList xs => Ok (Z.of_nat (List.length xs))
  | VDict kvs => Ok (Z.of_nat (List.length kvs))
  | _ => Raise (TypeError ("object of type '" ++ type_name v ++ "' has no len()"))
  end.

(** [v < n] and [v >= n] against an integer literal. *)
Definition as_number (v : value) : option Z :=
  match v with
  | VInt n => Some n
  | VBool b => Some (if b then 1 else 0)
  | _ => None
  end.

Definition lt_int (v : value) (n : Z) : result bool :=
  match as_number v with
  | Some m => Ok (m <? n)
  | None => Raise (TypeError ("'<' not supported between instances of '"
                              ++ type_name v ++ "' and 'int'"))
  end.

Definition ge_int (v : value) (n : Z) : result bool :=
  match as_number v with
  | Some m => Ok (n <=? m)
  | None => Raise (TypeError ("'>=' not supported between instances of '"
                              ++ type_name v ++ "' and 'int'"))
  end.

(** [v == "literal"] *)
Definition eq_str (v : value) (s : string) : bool :=
  match v with
  | VStr t => String.eqb t s
  | _ => false
  end.

(** *** Text *)

Definition upper_char (c : ascii) : ascii :=
  let n := nat_of_ascii c in
  if ((97 <=? n) && (n <=? 122))%nat then ascii_of_nat (n - 32) else c.

Fixpoint str_upper (s : string) : string :=
  match s with
  | EmptyString => EmptyString
  | String c s' => String (upper_char c) (str_upper s')
  end.

(** [v.upper()] *)
Definition upper (v : value) : result string :=
  match v with
  | VStr s => Ok (str_upper s)
  | _ => Raise (no_attribute v "upper")
  end.

Definition is_space (c : ascii) : bool :=
  let n := nat_of_ascii c in
  (((9 <=? n) && (n <=? 13)) || ((28 <=? n) && (n <=? 32)))%nat.

(** [s.split()]: the maximal runs of non-blank characters. *)
Fixpoint split_ws (cur : string) (s : string) : list string :=
  match s with
  | EmptyString => if String.eqb cur "" then [] else [cur]
  | String c s' =>
      if is_space c
      then (if String.eqb cur "" then split_ws "" s' else cur :: split_ws "" s')
      else split_ws (cur ++ String c EmptyString) s'
  end.

Definition split (v : value) : result (list string) :=
  match v with
  | VStr s => Ok (split_ws "" s)
  | _ => Raise (no_attribute v "split")
  end.

Definition str_of_Z (n : Z) : string := NilZero.string_of_int (Z.to_int n).

Fixpoint join (sep : string) (l : list string) : string :=
  match l with
  | [] => ""
  | [x] => x
  | x :: l' => x ++ sep ++ join sep l'
  end.

Fixpoint contains_char (c : ascii) (s : string) : bool :=
  match s with
  | EmptyString => false
  | String c' s' => Ascii.eqb c c' || contains_char c s'
  end.

Definition squote : ascii := "'"%char.
Definition dquote : ascii := ascii_of_nat 34.
Definition backslash : ascii := ascii_of_nat 92.

Definition hex_digit (n : nat) : ascii :=
  ascii_of_nat (if (n <? 10)%nat then 48 + n else 87 + n).

Definition repr_char (q c : ascii) : string :=
  let n := nat_of_ascii c in
  if Ascii.eqb c backslash then String backslash (String backslash "")
  else if Ascii.eqb c q then String backslash (String q "")
  else if (n =? 10)%nat then String backslash "n"
  else if (n =? 13)%nat then String backslash "r"
  else if (n =? 9)%nat then String backslash "t"
  else if ((n <? 32) || (n =? 127))%nat
       then String backslash
              (String "x" (String (hex_digit (n / 16)) (String (hex_digit (n mod 16)) "")))
  else String c "".

Fixpoint repr_chars (q : ascii) (s : string) : string :=
  match s with
  | EmptyString => EmptyString
  | String c s' => repr_char q c ++ repr_chars q s'
  end.

(** [repr(s)] of a string: single quotes, unless the text holds a single
    quote and no double quote. *)
Definition repr_str (s : string) : string :=
  let q := if contains_char squote s && negb (contains_char dquote s)
           then dquote else squote in
  String q (repr_chars q s ++ String q "").

(** [repr(v)] *)
Fixpoint py_repr (v : value) : string :=
  match v with
  | VNone => "None"
  | VBool true => "True"
  | VBool false => "False"
  | VInt n => str_of_Z n
  | VStr s => repr_str s
  | VList xs => "[" ++ join ", " (map py_repr xs) ++ "]"
  | VDict kvs =>
      "{" ++ join ", " (map (fun '(k, x) => repr_str k ++ ": " ++ py_repr x) kvs) ++ "}"
  end.

(** [str(v)], also what an f-string interpolates. *)
Definition py_str (v : value) : string :=
  match v with
  | VStr s => s
  | _ => py_repr v
  end.

(** [str(e)] of an exception. *)
Definition exn_str (e : exn) : string :=
  match e with
  | TransportError m | RequestError m | MCPClientError m | JSONDecodeError m
  | TypeError m | AttributeError m | IndexError m | ValueError m | RuntimeError m => m
  | KeyError k => py_repr k
  end.

End Py.

(** ** The environment of a run *)

Module Env.
Import Py.

(** [app/config.py], the fields the agent reads. *)
Record Settings : Type := {
  MCP_COMMON_URL : string;
  MCP_ATLAS_URL : string;
  MCP_TIMEOUT_SECONDS : Z;
  RETRY_ATTEMPTS : Z;
  RETRY_WAIT_SECONDS : Z
}.

(** The defaults of the [Settings] class; the two endpoints have none. *)
Definition default_settings (common_url atlas_url : string) : Settings :=
  {| MCP_COMMON_URL := common_url;
     MCP_ATLAS_URL := atlas_url;
     MCP_TIMEOUT_SECONDS := 10;
     RETRY_ATTEMPTS := 3;
     RETRY_WAIT_SECONDS := 1 |}.

(** What [httpx.AsyncClient.post] does with one request: it raises, or it
    returns a response with a status code and a body that [resp.json()]
    decodes or rejects. *)
Inductive post_outcome : Type :=
| PostRaises (e : exn)
| PostReturns (status_code : Z) (json : result value).

(** [app/models.py]: a row of [agent_runs]; the database fills in [id]
    and [created_at]. *)
Record AgentRun : Type := {
  ticket_id : value;
  input_payload : dict;
  result_payload : dict;
  logs : list string
}.

(** What the handlers read from outside, as an oracle.  [http_post n url
    body] answers the [n]-th request of the run (counted from 0),
    [entropy n] feeds the [n]-th random draw and [time_time n] is the
    [n]-th clock reading, taken in whole seconds. *)
Record Env : Type := {
  settings : Settings;
  http_post : nat -> string -> value -> post_outcome;
  entropy : nat -> Z;
  time_time : nat -> Z
}.

(** The database as an oracle: how the [n]-th attempt to store a run ends,
    [None] for a commit and [Some e] for the exception it raises. *)
Definition Database : Type := nat -> option exn.

(** What a run has done to the outside world so far.  Of the logger only
    the calls of [logger.exception] are kept; the [info] and [debug]
    lines of the handlers are not. *)
Record World : Type := {
  posts : list (string * value);      (* requests sent, oldest first *)
  sleeps : list Z;                    (* back-off delays, oldest first *)
  draws : nat;                        (* random numbers drawn *)
  clock_reads : nat;                  (* clock readings taken *)
  persist_attempts : nat;             (* attempts to store a run *)
  agent_runs : list AgentRun;         (* rows committed, oldest first *)
  logger_exceptions : list string     (* messages of logger.exception *)
}.

Definition fresh_world : World :=
  {| posts := []; sleeps := []; draws := 0; clock_reads := 0;
     persist_attempts := 0; agent_runs := []; logger_exceptions := [] |}.

Definition record_post (url : string) (body : value) (w : World) : World :=
  {| posts := posts w ++ [(url, body)]; sleeps := sleeps w; draws := draws w;
     clock_reads := clock_reads w; persist_attempts := persist_attempts w;
     agent_runs := agent_runs w; logger_exceptions := logger_exceptions w |}.

Definition record_sleep (seconds : Z) (w : World) : World :=
  {| posts := posts w; sleeps := sleeps w ++ [seconds]; draws := draws w;
     clock_reads := clock_reads w; persist_attempts := persist_attempts w;
     agent_runs := agent_runs w; logger_exceptions := logger_exceptions w |}.

Definition record_draw (w : World) : World :=
  {| posts := posts w; sleeps := sleeps w; draws := S (draws w);
     clock_reads := clock_reads w; persist_attempts := persist_attempts w;
     agent_runs := agent_runs w; logger_exceptions := logger_exceptions w |}.

Definition record_clock_read (w : World) : World :=
  {| posts := posts w; sleeps := sleeps w; draws := draws w;
     clock_reads := S (clock_reads w); persist_attempts := persist_attempts w;
     agent_runs := agent_runs w; logger_exceptions := logger_exceptions w |}.

Definition record_commit (row : AgentRun) (w : World) : World :=
  {| posts := posts w; sleeps := sleeps w; draws := draws w;
     clock_reads := clock_reads w; persist_attempts := S (persist_attempts w);
     agent_runs := agent_runs w ++ [row]; logger_exceptions := logger_exceptions w |}.

Definition record_failed_commit (message : string) (w : World) : World :=
  {| posts := posts w; sleeps := sleeps w; draws := draws w;
     clock_reads := clock_reads w; persist_attempts := S (persist_attempts w);
     agent_runs := agent_runs w;
     logger_exceptions := logger_exceptions w ++ [message] |}.

Definition record_logger_exception (message : string) (w : World) : World :=
  {| posts := posts w; sleeps := sleeps w; draws := draws w;
     clock_reads := clock_reads w; persist_attempts := persist_attempts w;
     agent_runs := agent_runs w;
     logger_exceptions := logger_exceptions w ++ [message] |}.

(** [random.randint(a, b)]: some integer of [a..b], picked by the entropy. *)
Definition randint (env : Env) (a b : Z) (w : World) : Z * World :=
  (a + entropy env (draws w) mod (b - a + 1), record_draw w).

End Env.

(** ** [app/mcp/clients.py] *)

Module Clients.
Import Py Env.

Record BaseMCPClient : Type := {
  base_url : string;
  timeout : Z
}.

(** [s.rstrip("/")] *)
Fixpoint rstrip_slash (s : string) : string :=
  match s with
  | EmptyString => EmptyString
  | String c s' =>
      match rstrip_slash s' with
      | EmptyString => if Ascii.eqb c "/"%char then EmptyString else String c EmptyString
      | rest => String c rest
      end
  end.

(** [BaseMCPClient.__init__] *)
Definition new_client (url : string) (timeout_seconds : Z) : BaseMCPClient :=
  {| base_url := rstrip_slash url; timeout := timeout_seconds |}.

(** *** The retry policy handed to tenacity's [AsyncRetrying] *)

(** [stop_after_attempt(n)]: stop once the attempt number reaches [n]. *)
Definition stop_after_attempt (max_attempt_number attempt_number : Z) : bool :=
  max_attempt_number <=? attempt_number.

(** [wait_exponential(multiplier, min, max)] with base 2: the delay after
    attempt [attempt_number]. *)
Definition wait_exponential (multiplier min max attempt_number : Z) : Z :=
  Z.max (Z.max 0 min) (Z.min (multiplier * 2 ^ (attempt_number - 1)) max).

(** [retry_if_exception_type((httpx.TransportError, httpx.RequestError))] *)
Definition retry_if_exception_type (e : exn) : bool :=
  match e with
  | TransportError _ | RequestError _ => true
  | _ => false
  end.

Section Call.
Variable env : Env.

(** The loop of [BaseMCPClient.call].  One round is one attempt: the body
    of the [with attempt:] block, then tenacity's decision.  An exception
    of the block that the [retry] predicate rejects leaves the loop at
    once; one it accepts is raised again when [stop] holds
    ([reraise=True]) and otherwise followed by the back-off sleep and the
    next attempt.  The recursion is on [fuel]; the statement after the
    loop, [raise MCPClientError("Retries exhausted")], is where the model
    lands when the fuel is used up. *)
Fixpoint attempts (fuel : nat) (url : string) (payload : value)
    (attempt_number : Z) (w : World) : result value * World :=
  match fuel with
  | O => (Raise (MCPClientError "Retries exhausted"), w)
  | S fuel' =>
      let outcome := http_post env (List.length (posts w)) url payload in
      let w1 := record_post url payload w in
      let block : result value :=
        match outcome with
        | PostRaises e => Raise e
        | PostReturns status_code json =>
            if 500 <=? status_code
            then Raise (MCPClientError ("server error " ++ str_of_Z status_code))
            else json
        end in
      match block with
      | Ok body => (Ok body, w1)
      | Raise e =>
          if retry_if_exception_type e then
            if stop_after_attempt (RETRY_ATTEMPTS (settings env)) attempt_number
            then (Raise e, w1)
            else
              let seconds :=
                wait_exponential 1 (RETRY_WAIT_SECONDS (settings env)) 10 attempt_number in
              attempts fuel' url payload (attempt_number + 1) (record_sleep seconds w1)
          else (Raise e, w1)
      end
  end.

(** [path or ability] *)
Definition path_or (path : option string) (ability : string) : string :=
  match path with
  | Some p => if String.eqb p "" then ability else p
  | None => ability
  end.

(** [BaseMCPClient.call] *)
Definition call (self : BaseMCPClient) (ability : string) (payload : value)
    (path : option string) (w : World) : result value * World :=
  let url := base_url self ++ "/" ++ path_or path ability in
  attempts (S (Z.to_nat (RETRY_ATTEMPTS (settings env)))) url payload 1 w.

Definition common_client : BaseMCPClient :=
  new_client (MCP_COMMON_URL (settings env)) (MCP_TIMEOUT_SECONDS (settings env)).

Definition atlas_client : BaseMCPClient :=
  new_client (MCP_ATLAS_URL (settings env)) (MCP_TIMEOUT_SECONDS (settings env)).

End Call.

End Clients.

(** ** [app/abilities/implementations.py] *)

Module Abilities.
Import Py Env Clients.

(** What a handler works on: the central state dictionary of the run and
    the outside world. *)
Record Store : Type := {
  state : dict;
  world : World
}.

(** Handlers run in a state-and-error monad.  The store comes back also
    when an exception is raised: what a handler wrote before it failed
    stays written. *)
Definition M (A : Type) : Type := Store -> result A * Store.

Definition ret {A} (a : A) : M A := fun s => (Ok a, s).

Definition bind {A B} (m : M A) (k : A -> M B) : M B :=
  fun s =>
    match m s with
    | (Ok a, s') => k a s'
    | (Raise e, s') => (Raise e, s')
    end.

Notation "x <- m ;; k" := (bind m (fun x => k))
  (at level 61, m at next level, right associativity).
Notation "m ;;; k" := (bind m (fun _ => k))
  (at level 61, right associativity).

(** An operation of module [Py] that returns or raises. *)
Definition lift {A} (r : result A) : M A := fun s => (r, s).

(** An operation on the outside world alone. *)
Definition on_world {A} (f : World -> result A * World) : M A :=
  fun s =>
    let (r, w) := f (world s) in
    (r, {| state := state s; world := w |}).

(** [state[k]] *)
Definition state_getitem (k : string) : M value :=
  fun s => (getitem (VDict (state s)) k, s).

(** [state.get(k, default)] *)
Definition state_get (k : string) (default : value) : M value :=
  fun s => (get (VDict (state s)) k default, s).

(** [state[k] = v] *)
Definition state_setitem (k : string) (v : value) : M unit :=
  fun s => (Ok tt, {| state := dict_set k v (state s); world := world s |}).

(** [state.setdefault(k, default)] *)
Definition state_setdefault (k : string) (default : value) : M value :=
  fun s =>
    match dict_get k (state s) with
    | Some v => (Ok v, s)
    | None => (Ok default, {| state := dict_set k default (state s); world := world s |})
    end.

Definition status_ok : value := VDict [("status", VStr "ok")].

Definition nl : string := String (ascii_of_nat 10) EmptyString.

Section Handlers.
Variable env : Env.

(** [await atlas_client.call(ability, payload)] *)
Definition atlas_call (ability : string) (payload : value) : M value :=
  on_world (call env (atlas_client env) ability payload None).

Definition accept_payload (kwargs : dict) : M value :=
  input_payload <- lift (get (VDict kwargs) "input_payload" (VDict [])) ;;
  p <- state_getitem "payload" ;;
  p' <- lift (update p input_payload) ;;
  state_setitem "payload" p' ;;;
  ret status_ok.

Definition parse_request_text (kwargs : dict) : M value :=
  p <- state_getitem "payload" ;;
  q <- lift (get p "query" (VStr "")) ;;
  n <- lift (len q) ;;
  words <- lift (split q) ;;
  let parsed := VDict [("len", VInt n); ("words", VList (map VStr words))] in
  d <- state_setdefault "parsed" (VDict []) ;;
  d' <- lift (update d parsed) ;;
  state_setitem "parsed" d' ;;;
  ret (VDict [("status", VStr "ok"); ("parsed", parsed)]).

Definition extract_entities (kwargs : dict) : M value :=
  p <- state_getitem "payload" ;;
  resp <- atlas_call "extract_entities" p ;;
  entities <- lift (get resp "entities" (VDict [])) ;;
  d <- state_setdefault "entities" (VDict []) ;;
  d' <- lift (update d entities) ;;
  state_setitem "entities" d' ;;;
  ret (VDict [("status", VStr "ok"); ("entities", entities)]).

Definition normalize_fields (kwargs : dict) : M value :=
  p <- state_getitem "payload" ;;
  priority <- lift (get p "priority" VNone) ;;
  upper_priority <- lift (upper (py_or priority (VStr "NORMAL"))) ;;
  p1 <- lift (setitem p "priority" (VStr upper_priority)) ;;
  state_setitem "payload" p1 ;;;
  ticket_id <- lift (get p1 "ticket_id" VNone) ;;
  (if truthy ticket_id
   then
     t <- lift (getitem p1 "ticket_id") ;;
     p2 <- lift (setitem p1 "ticket_id" (VStr (str_upper (py_str t)))) ;;
     state_setitem "payload" p2
   else ret tt) ;;;
  ret status_ok.

Definition enrich_records (kwargs : dict) : M value :=
  p <- state_getitem "payload" ;;
  resp <- atlas_call "enrich_records" p ;;
  d <- state_setdefault "enrichment" (VDict []) ;;
  lift (has_update d) ;;;
  enrichment <- lift (get resp "enrichment" (VDict [])) ;;
  d' <- lift (update d enrichment) ;;
  state_setitem "enrichment" d' ;;;
  ret status_ok.

Definition add_flags_calculations (kwargs : dict) : M value :=
  p <- state_getitem "payload" ;;
  priority <- lift (get p "priority" (VStr "NORMAL")) ;;
  let sla_risk := if eq_str priority "HIGH" then true else false in
  d <- state_setdefault "flags" (VDict []) ;;
  d' <- lift (setitem d "sla_risk" (VBool sla_risk)) ;;
  state_setitem "flags" d' ;;;
  ret status_ok.

Definition clarify_question (kwargs : dict) : M value :=
  missing <- lift (get (VDict kwargs) "missing_fields" (VList [])) ;;
  p <- state_getitem "payload" ;;
  body <- lift (unpack_into [("missing_fields", missing)] p) ;;
  resp <- atlas_call "clarify_question" body ;;
  prompt <- lift (get resp "prompt" VNone) ;;
  d <- state_setdefault "pending_clarification" (VDict []) ;;
  d' <- lift (setitem d "prompt" prompt) ;;
  state_setitem "pending_clarification" d' ;;;
  prompt' <- lift (get resp "prompt" VNone) ;;
  ret (VDict [("status", VStr "ok"); ("prompt", prompt')]).

Definition extract_answer (kwargs : dict) : M value :=
  (* In production you'd wait on message bus or callback. For sync-run we
     accept a simulate value *)
  simulated <- lift (get (VDict kwargs) "simulate_human_answer" VNone) ;;
  resp <- (if truthy simulated
           then ret (VDict [("answer", simulated)])
           else
             p <- state_getitem "payload" ;;
             atlas_call "extract_answer" p) ;;
  answers <- state_setdefault "answers" (VList []) ;;
  lift (has_append answers) ;;;
  answer <- lift (get resp "answer" VNone) ;;
  answers' <- lift (append answers answer) ;;
  state_setitem "answers" answers' ;;;
  answer' <- lift (get resp "answer" VNone) ;;
  ret (VDict [("status", VStr "ok"); ("answer", answer')]).

Definition store_answer (kwargs : dict) : M value :=
  answers <- state_get "answers" (VList []) ;;
  latest <- (if truthy answers then lift (last_item answers) else ret VNone) ;;
  state_setitem "latest_answer" latest ;;;
  ret status_ok.

Definition knowledge_base_search (kwargs : dict) : M value :=
  p <- state_getitem "payload" ;;
  query <- lift (get p "query" VNone) ;;
  resp <- atlas_call "knowledge_base_search" (VDict [("query", query)]) ;;
  hits <- lift (get resp "kb_hits" (VList [])) ;;
  d <- state_setdefault "kb" (VDict []) ;;
  d' <- lift (setitem d "hits" hits) ;;
  state_setitem "kb" d' ;;;
  ret status_ok.

Definition store_data (kwargs : dict) : M value :=
  (* no-op for now; keep for audit *)
  ret status_ok.

Definition solution_evaluation (kwargs : dict) : M value :=
  kb <- state_get "kb" (VDict []) ;;
  hits <- lift (get kb "hits" (VList [])) ;;
  kb_hits <- lift (len hits) ;;
  let base := 70 + Z.min 20 (kb_hits * 10) in
  p <- state_getitem "payload" ;;
  priority <- lift (get p "priority" VNone) ;;
  let base := if eq_str priority "HIGH" then base - 10 else base in
  jitter <- on_world (fun w => let (j, w') := randint env (-3) 3 w in (Ok j, w')) ;;
  let score := Z.max 0 (Z.min 100 (base + jitter)) in
  d <- state_setdefault "decision" (VDict []) ;;
  d' <- lift (setitem d "score" (VInt score)) ;;
  state_setitem "decision" d' ;;;
  ret (VDict [("score", VInt score)]).

Definition escalation_decision (kwargs : dict) : M value :=
  decision <- state_get "decision" (VDict []) ;;
  score <- lift (get decision "score" (VInt 100)) ;;
  below <- lift (lt_int score 90) ;;
  if below : bool then
    p <- state_getitem "payload" ;;
    resp <- atlas_call "escalation_decision" p ;;
    assigned_to <- lift (get resp "assigned_to" VNone) ;;
    d <- state_getitem "decision" ;;
    d' <- lift (setitem d "escalated_to" assigned_to) ;;
    state_setitem "decision" d' ;;;
    assigned_to' <- lift (get resp "assigned_to" VNone) ;;
    ret (VDict [("status", VStr "escalated"); ("assigned_to", assigned_to')])
  else ret (VDict [("status", VStr "not_escalated")]).

(** The audit entry holds the decision as it is when recorded. *)
Definition update_payload (kwargs : dict) : M value :=
  audit <- state_setdefault "audit" (VList []) ;;
  lift (has_append audit) ;;;
  decision <- state_get "decision" (VDict []) ;;
  ts <- on_world (fun w => (Ok (time_time env (clock_reads w)), record_clock_read w)) ;;
  audit' <- lift (append audit (VDict [("decision", decision); ("ts", VInt ts)])) ;;
  state_setitem "audit" audit' ;;;
  ret status_ok.

Definition update_ticket (kwargs : dict) : M value :=
  p <- state_getitem "payload" ;;
  priority <- lift (get p "priority" VNone) ;;
  decision <- state_get "decision" (VDict []) ;;
  escalated_to <- lift (get decision "escalated_to" VNone) ;;
  let update_fields :=
    VDict [("status", VStr "in_progress");
           ("priority", priority);
           ("assigned_to", escalated_to)] in
  p' <- state_getitem "payload" ;;
  ticket <- lift (get p' "ticket_id" VNone) ;;
  resp <- atlas_call "update_ticket"
            (VDict [("ticket_id", ticket); ("update_fields", update_fields)]) ;;
  ret resp.

Definition close_ticket (kwargs : dict) : M value :=
  decision <- state_get "decision" (VDict []) ;;
  score <- lift (get decision "score" (VInt 0)) ;;
  eligible <- lift (ge_int score 90) ;;
  if eligible : bool then
    p <- state_getitem "payload" ;;
    ticket <- lift (get p "ticket_id" VNone) ;;
    resp <- atlas_call "close_ticket" (VDict [("ticket_id", ticket)]) ;;
    p' <- state_getitem "payload" ;;
    p'' <- lift (setitem p' "status" (VStr "closed")) ;;
    state_setitem "payload" p'' ;;;
    ret resp
  else ret (VDict [("status", VStr "not_closed")]).

Definition response_generation (kwargs : dict) : M value :=
  p <- state_getitem "payload" ;;
  customer_name <- lift (get p "customer_name" VNone) ;;
  let name := py_or customer_name (VStr "Customer") in
  p' <- state_getitem "payload" ;;
  query <- lift (get p' "query" VNone) ;;
  let reply :=
    "Hi " ++ py_str name ++ "," ++ nl ++ nl
    ++ "Thanks for contacting support about: " ++ py_str query ++ nl ++ nl
    ++ "Regards," ++ nl ++ "Support Team" in
  state_setitem "generated_response" (VStr reply) ;;;
  ret (VDict [("response", VStr reply)]).

Definition execute_api_calls (kwargs : dict) : M value :=
  p <- state_getitem "payload" ;;
  resp <- atlas_call "execute_api_calls" p ;;
  ret resp.

Definition trigger_notifications (kwargs : dict) : M value :=
  p <- state_getitem "payload" ;;
  resp <- atlas_call "trigger_notifications" p ;;
  ret resp.

Definition output_payload (kwargs : dict) : M value :=
  fun s => (Ok (VDict [("final_payload", VDict (state s))]), s).

End Handlers.

End Abilities.

(** ** [app/agent/stage_def.py] *)

Module StageAbility.
Record t : Type := make {
  name : string;
  mcp : string;
  prompt : string
}.
End StageAbility.

Module Stage.
Record t : Type := make {
  name : string;
  mode : string;  (* deterministic | non-deterministic | human *)
  abilities : list StageAbility.t;
  exec_rule : option string
}.
End Stage.

(** ** [app/agent/agent.py] *)

Module Agent.
Import Py Env Clients Abilities.

(** Stage graph config *)
Definition STAGE_CONFIG : list Stage.t := [
  Stage.make "INTAKE" "deterministic"
    [StageAbility.make "accept_payload" "COMMON" "Accept payload"] None;
  Stage.make "UNDERSTAND" "deterministic"
    [StageAbility.make "parse_request_text" "COMMON" "Parse text";
     StageAbility.make "extract_entities" "ATLAS" "Extract entities"] None;
  Stage.make "PREPARE" "deterministic"
    [StageAbility.make "normalize_fields" "COMMON" "Normalize";
     StageAbility.make "enrich_records" "ATLAS" "Enrich";
     StageAbility.make "add_flags_calculations" "COMMON" "Flags"] None;
  Stage.make "ASK" "human"
    [StageAbility.make "clarify_question" "ATLAS" "Clarify"] None;
  Stage.make "WAIT" "deterministic"
    [StageAbility.make "extract_answer" "ATLAS" "Extract answer";
     StageAbility.make "store_answer" "COMMON" "Store answer"] None;
  Stage.make "RETRIEVE" "deterministic"
    [StageAbility.make "knowledge_base_search" "ATLAS" "KB search";
     StageAbility.make "store_data" "COMMON" "Store KB"] None;
  Stage.make "DECIDE" "non-deterministic"
    [StageAbility.make "solution_evaluation" "COMMON" "Score solutions";
     StageAbility.make "escalation_decision" "ATLAS" "Escalate if needed";
     StageAbility.make "update_payload" "COMMON" "Record decision"]
    (Some "score_then_maybe_escalate");
  Stage.make "UPDATE" "deterministic"
    [StageAbility.make "update_ticket" "ATLAS" "Update ticket";
     StageAbility.make "close_ticket" "ATLAS" "Close ticket"] None;
  Stage.make "CREATE" "deterministic"
    [StageAbility.make "response_generation" "COMMON" "Generate reply"] None;
  Stage.make "DO" "deterministic"
    [StageAbility.make "execute_api_calls" "ATLAS" "Execute APIs";
     StageAbility.make "trigger_notifications" "ATLAS" "Notify"] None;
  Stage.make "COMPLETE" "deterministic"
    [StageAbility.make "output_payload" "COMMON" "Output payload"] None
].

(** A handler takes the keyword arguments of the call and works on the
    state. *)
Definition handler : Type := dict -> M value.

(** What the engine carries through a run: the state and the world the
    handlers work on, the log, and the names of the handlers it has
    invoked so far.  [calls] is an observation kept for the proofs; the
    program has no such list. *)
Record Ctx : Type := {
  store : Store;
  logs : list string;
  calls : list string
}.

Definition log (line : string) (c : Ctx) : Ctx :=
  {| store := store c; logs := logs c ++ [line]; calls := calls c |}.

(** [await fn(state, **extra)], noting the invocation. *)
Definition invoke (name : string) (fn : handler) (extra : dict) (c : Ctx)
  : result value * Ctx :=
  let (r, s) := fn extra (store c) in
  (r, {| store := s; logs := logs c; calls := calls c ++ [name] |}).

Fixpoint assoc {A} (name : string) (l : list (string * A)) : option A :=
  match l with
  | [] => None
  | (k, a) :: l' => if String.eqb name k then Some a else assoc name l'
  end.

Section Engine.
Variable env : Env.

(** mapping ability names to implementations *)
Definition ABILITY_LOOKUP : list (string * handler) := [
  ("accept_payload", accept_payload);
  ("parse_request_text", parse_request_text);
  ("extract_entities", extract_entities env);
  ("normalize_fields", normalize_fields);
  ("enrich_records", enrich_records env);
  ("add_flags_calculations", add_flags_calculations);
  ("clarify_question", clarify_question env);
  ("extract_answer", extract_answer env);
  ("store_answer", store_answer);
  ("knowledge_base_search", knowledge_base_search env);
  ("store_data", store_data);
  ("solution_evaluation", solution_evaluation env);
  ("escalation_decision", escalation_decision env);
  ("update_payload", update_payload env);
  ("update_ticket", update_ticket env);
  ("close_ticket", close_ticket env);
  ("response_generation", response_generation);
  ("execute_api_calls", execute_api_calls env);
  ("trigger_notifications", trigger_notifications env);
  ("output_payload", output_payload)
].

(** [ABILITY_LOOKUP[name]] *)
Definition lookup_item (name : string) : result handler :=
  match assoc name ABILITY_LOOKUP with
  | Some fn => Ok fn
  | None => Raise (KeyError (VStr name))
  end.

Variable db_commit : Database.
Variable input_payload : dict.
Variable simulate_human_answer : option string.

Definition simulated_value : value :=
  match simulate_human_answer with
  | Some s => VStr s
  | None => VNone
  end.

(** The keyword arguments the engine adds for an ability. *)
Definition extra_for (name : string) : dict :=
  let extra := [] in
  let extra := if String.eqb name "accept_payload"
               then dict_set "input_payload" (VDict input_payload) extra else extra in
  let extra := if String.eqb name "extract_answer"
               then dict_set "simulate_human_answer" simulated_value extra else extra in
  extra.

(** The loop over the abilities of a deterministic or human stage. *)
Fixpoint run_abilities (abilities : list StageAbility.t) (c : Ctx)
  : result unit * Ctx :=
  match abilities with
  | [] => (Ok tt, c)
  | ability :: rest =>
      let name := StageAbility.name ability in
      let c := log ("-> ability " ++ name) c in
      match assoc name ABILITY_LOOKUP with
      | None => run_abilities rest (log ("!! missing impl " ++ name) c)
      | Some fn =>
          match invoke name fn (extra_for name) c with
          | (Ok res, c) => run_abilities rest (log ("   -> res: " ++ py_str res) c)
          | (Raise e, c) => (Raise e, c)
          end
      end
  end.

(** The body of the branch for [exec_rule == "score_then_maybe_escalate"]. *)
Definition score_then_maybe_escalate (c : Ctx) : result unit * Ctx :=
  (* evaluate *)
  match lookup_item "solution_evaluation" with
  | Raise e => (Raise e, c)
  | Ok fn =>
  match invoke "solution_evaluation" fn [] c with
  | (Raise e, c) => (Raise e, c)
  | (Ok res, c) =>
  match get res "score" VNone with
  | Raise e => (Raise e, c)
  | Ok shown =>
  let c := log ("   -> solution score: " ++ py_str shown) c in
  match get (VDict (state (store c))) "decision" (VDict []) with
  | Raise e => (Raise e, c)
  | Ok decision =>
  match get decision "score" (VInt 100) with
  | Raise e => (Raise e, c)
  | Ok score =>
  match lt_int score 90 with
  | Raise e => (Raise e, c)
  | Ok below =>
  let branch : result unit * Ctx :=
    if below : bool then
      match lookup_item "escalation_decision" with
      | Raise e => (Raise e, c)
      | Ok fn2 =>
          match invoke "escalation_decision" fn2 [] c with
          | (Raise e, c) => (Raise e, c)
          | (Ok res2, c) => (Ok tt, log ("   -> escalation: " ++ py_str res2) c)
          end
      end
    else (Ok tt, log "   -> score >= 90, skipping escalation" c) in
  match branch with
  | (Raise e, c) => (Raise e, c)
  | (Ok _, c) =>
  match lookup_item "update_payload" with
  | Raise e => (Raise e, c)
  | Ok fn3 =>
      match invoke "update_payload" fn3 [] c with
      | (Raise e, c) => (Raise e, c)
      | (Ok _, c) => (Ok tt, c)
      end
  end end end end end end end end.

(** fallback: run sequentially *)
Fixpoint run_fallback (abilities : list StageAbility.t) (c : Ctx)
  : result unit * Ctx :=
  match abilities with
  | [] => (Ok tt, c)
  | ability :: rest =>
      let name := StageAbility.name ability in
      match assoc name ABILITY_LOOKUP with
      | None => run_fallback rest c
      | Some fn =>
          match invoke name fn [] c with
          | (Ok res, c) =>
              run_fallback rest (log ("   -> " ++ name ++ " " ++ py_str res) c)
          | (Raise e, c) => (Raise e, c)
          end
      end
  end.

(** One round of the loop over the stages. *)
Definition run_stage (stage : Stage.t) (c : Ctx) : result unit * Ctx :=
  let c := log ("=== STAGE " ++ Stage.name stage ++ " (" ++ Stage.mode stage ++ ") ===") c in
  if String.eqb (Stage.mode stage) "deterministic" || String.eqb (Stage.mode stage) "human"
  then run_abilities (Stage.abilities stage) c
  else if String.eqb (Stage.mode stage) "non-deterministic" then
    match Stage.exec_rule stage with
    | Some "score_then_maybe_escalate" => score_then_maybe_escalate c
    | _ => run_fallback (Stage.abilities stage) c
    end
  else (Ok tt, log ("Unknown stage mode " ++ Stage.mode stage) c).

Fixpoint run_stages (stages : list Stage.t) (c : Ctx) : result unit * Ctx :=
  match stages with
  | [] => (Ok tt, c)
  | stage :: rest =>
      match run_stage stage c with
      | (Ok _, c) => run_stages rest c
      | (Raise e, c) => (Raise e, c)
      end
  end.

(** [LangGraphAgent._persist_run]: persist to DB for audit.  Whatever goes
    wrong is caught and reported through [logger.exception]. *)
Definition _persist_run (final_payload : dict) (run_logs : list string)
    (w : World) : World :=
  let row := {| ticket_id := match dict_get "ticket_id" input_payload with
                             | Some t => t
                             | None => VNone
                             end;
                Env.input_payload := input_payload;
                result_payload := final_payload;
                Env.logs := run_logs |} in
  match db_commit (persist_attempts w) with
  | None => record_commit row w
  | Some _ => record_failed_commit "failed to persist run (non-fatal)" w
  end.

Definition persist (c : Ctx) : Ctx :=
  {| store := {| state := state (store c);
                 world := _persist_run (state (store c)) (logs c) (world (store c)) |};
     logs := logs c;
     calls := calls c |}.

Definition note_failure (c : Ctx) : Ctx :=
  {| store := {| state := state (store c);
                 world := record_logger_exception "agent run failed" (world (store c)) |};
     logs := logs c;
     calls := calls c |}.

(** central mutable state *)
Definition initial_ctx (w : World) : Ctx :=
  {| store := {| state := [("payload", VDict input_payload)]; world := w |};
     logs := [];
     calls := [] |}.

(** [LangGraphAgent.run].  The first component is what the caller gets:
    the final payload with the logs, or the exception raised again; the
    second is the engine's context when the run ends. *)
Definition run (stages : list Stage.t) (w : World)
  : result (dict * list string) * Ctx :=
  match run_stages stages (initial_ctx w) with
  | (Ok _, c) =>
      let c := persist c in
      (Ok (state (store c), logs c), c)
  | (Raise e, c) =>
      let c := note_failure c in
      let c := log ("error: " ++ exn_str e) c in
      let c := persist c in
      (Raise e, c)
  end.

End Engine.

(** [LangGraphAgent.__init__]: [self.stages = stages or STAGE_CONFIG] *)
Definition new_agent (stages : option (list Stage.t)) : list Stage.t :=
  match stages with
  | Some ((_ :: _) as l) => l
  | _ => STAGE_CONFIG
  end.

End Agent.

Import Py Env Clients Abilities Agent.

(** * Observations and the specification's own definitions *)

(** [state['payload'][field]], when both exist *)
Definition payload_field (field : string) (st : dict) : option value :=
  match dict_get "payload" st with
  | Some (VDict p) => dict_get field p
  | _ => None
  end.

(** [state['decision'][field]], when both exist *)
Definition decision_field (field : string) (st : dict) : option value :=
  match dict_get "decision" st with
  | Some (VDict d) => dict_get field d
  | _ => None
  end.

(** The Python expression [state.get('kb', {}).get('hits', [])]. *)
Definition kb_hits_expr (st : dict) : result value :=
  match get (VDict st) "kb" (VDict []) with
  | Ok kb => get kb "hits" (VList [])
  | Raise e => Raise e
  end.

(** [state] has no entry for [key] yet, or the entry is a dictionary. *)
Definition absent_or_dict (key : string) (st : dict) : Prop :=
  dict_get key st = None \/ exists d, dict_get key st = Some (VDict d).

(** [state] has no entry for [key] yet, or the entry is a list. *)
Definition absent_or_list (key : string) (st : dict) : Prop :=
  dict_get key st = None \/ exists xs, dict_get key st = Some (VList xs).

(** The scoring rule in the words of the specification. *)
Definition clamp (lo hi x : Z) : Z := Z.max lo (Z.min hi x).

Definition spec_score (kbHits : Z) (high : bool) (jitter : Z) : Z :=
  clamp 0 100 (70 + Z.min 20 (kbHits * 10) - (if high then 10 else 0) + jitter).

(** [state['payload'].get('priority') == "HIGH"] *)
Definition is_high (st : dict) : bool :=
  match payload_field "priority" st with
  | Some v => eq_str v "HIGH"
  | None => false
  end.

(** The jitter that [solution_evaluation] draws in world [w]. *)
Definition jitter_of (env : Env) (w : World) : Z := fst (randint env (-3) 3 w).

(** The back-off delay that [BaseMCPClient.call] sleeps after a failed
    attempt. *)
Definition backoff (env : Env) (attempt_number : Z) : Z :=
  wait_exponential 1 (RETRY_WAIT_SECONDS (settings env)) 10 attempt_number.

(** The URL that [BaseMCPClient.call] posts to. *)
Definition url_of (self : BaseMCPClient) (ability : string) (path : option string) : string :=
  base_url self ++ "/" ++ path_or path ability.

(** [d.get(field)] of an optional entry: [None] when it is missing. *)
Definition or_none (o : option value) : value :=
  match o with
  | Some v => v
  | None => VNone
  end.

(** The list under [key], empty when there is none. *)
Definition list_at (key : string) (st : dict) : list value :=
  match dict_get key st with
  | Some (VList xs) => xs
  | _ => []
  end.

(** The state after [close_ticket] has marked the payload as closed. *)
Definition closed_state (st p : dict) : dict :=
  dict_set "payload" (VDict (dict_set "status" (VStr "closed") p)) st.


(** Whether [ABILITY_LOOKUP] has an implementation under [name]. *)
Definition registered (env : Env) (name : string) : bool :=
  match assoc name (ABILITY_LOOKUP env) with
  | Some _ => true
  | None => false
  end.


(** The marker that opens a stage in the log. *)
Definition stage_header (stage : Stage.t) : string :=
  "=== STAGE " ++ Stage.name stage ++ " (" ++ Stage.mode stage ++ ") ===".

(** A sequential stage: mode [deterministic] or [human]. *)
Definition sequential (stage : Stage.t) : Prop :=
  Stage.mode stage = "deterministic" \/ Stage.mode stage = "human".


(** The row that [_persist_run] hands to the database. *)
Definition run_row (input : dict) (final : dict) (run_logs : list string) : AgentRun :=
  {| ticket_id := or_none (dict_get "ticket_id" input);
     input_payload := input;
     result_payload := final;
     Env.logs := run_logs |}.




(** * Sample environments *)

Definition sample_settings : Settings :=
  default_settings "http://common:8001/" "http://atlas:8002/".


Definition ends_with (suffix s : string) : bool :=
  let n := String.length s in
  let m := String.length suffix in
  String.eqb (substring (n - m) m s) suffix.

(** A remote service that answers every request, in the manner of the
    mock servers of the repository. *)
Definition atlas_reply (url : string) : value :=
  if ends_with "/knowledge_base_search" url
  then VDict [("kb_hits", VList [VStr "kb-101"; VStr "kb-201"])]
  else if ends_with "/escalation_decision" url
  then VDict [("status", VStr "escalated"); ("assigned_to", VStr "human_agent_7")]
  else if ends_with "/extract_answer" url
  then VDict [("status", VStr "ok"); ("answer", VStr "The invoice number is INV-1234.")]
  else VDict [("status", VStr "ok")].

Definition healthy_post (n : nat) (url : string) (body : value) : post_outcome :=
  PostReturns 200 (Ok (atlas_reply url)).

(** [raw] is what every random draw gets from the generator. *)
Definition healthy_env (raw : Z) : Env :=
  {| settings := sample_settings;
     http_post := healthy_post;
     entropy := fun _ => raw;
     time_time := fun _ => 1700000000 |}.



(** The first request is answered with status 503, the later ones with 200. *)
Definition erroring_env : Env :=
  {| settings := sample_settings;
     http_post := fun n url body =>
       match n with
       | O => PostReturns 503 (Ok (VDict [("detail", VStr "Service Unavailable")]))
       | S _ => healthy_post n url body
       end;
     entropy := fun _ => 0;
     time_time := fun _ => 1700000000 |}.

(** Requests to [.../escalation_decision] fail with status 503. *)
Definition no_escalation_env (raw : Z) : Env :=
  {| settings := sample_settings;
     http_post := fun n url body =>
       if ends_with "/escalation_decision" url
       then PostReturns 503 (Ok (VDict [("detail", VStr "Service Unavailable")]))
       else healthy_post n url body;
     entropy := fun _ => raw;
     time_time := fun _ => 1700000000 |}.

Definition db_up : Database := fun _ => None.

Definition sample_input : dict :=
  [("query", VStr "invoice INV-9876 is delayed");
   ("priority", VStr "high");
   ("ticket_id", VStr "tckt-1")].

Definition sample_answer : string := "INV-9876, check billing cycle".

Definition sample_store : Store :=
  {| state := [("payload", VDict sample_input)]; world := fresh_world |}.

(** A state after the RETRIEVE stage, and one after a decision. *)
Definition normalized_payload : dict :=
  [("query", VStr "invoice INV-9876 is delayed");
   ("priority", VStr "HIGH");
   ("ticket_id", VStr "TCKT-1")].

Definition retrieved_state : dict :=
  [("payload", VDict normalized_payload);
   ("kb", VDict [("hits", VList [VStr "kb-101"; VStr "kb-201"])])].

Definition decided_state (score : Z) : dict :=
  (retrieved_state ++ [("decision", VDict [("score", VInt score)])])%list.

(** Stages and contexts for the examples. *)
Definition wait_stage : Stage.t :=
  Stage.make "WAIT" "deterministic"
    [StageAbility.make "extract_answer" "ATLAS" "Extract answer";
     StageAbility.make "store_answer" "COMMON" "Store answer"] None.


Definition translate_reply : StageAbility.t :=
  StageAbility.make "translate_reply" "ATLAS" "Translate the reply".

(** A deterministic stage that names an ability without implementation
    between two that have one. *)
Definition create_stage_extended : Stage.t :=
  Stage.make "CREATE" "deterministic"
    [StageAbility.make "response_generation" "COMMON" "Generate reply";
     translate_reply;
     StageAbility.make "store_data" "COMMON" "Store KB"] None.

(** The same declaration in a non-deterministic stage without rule, in a
    stage of unknown mode and in the decision stage. *)
Definition fallback_stage : Stage.t :=
  Stage.make "CREATE" "non-deterministic" [translate_reply] None.

Definition parallel_stage : Stage.t :=
  Stage.make "CREATE" "parallel" [translate_reply] None.


Definition sample_ctx : Ctx := initial_ctx sample_input fresh_world.


(** Two worlds that differ at most in the requests sent and the delays
    slept: the random generator, the clock, the database and the logger
    are where they were. *)
Definition only_requests (w w' : World) : Prop :=
  draws w' = draws w /\
  clock_reads w' = clock_reads w /\
  persist_attempts w' = persist_attempts w /\
  agent_runs w' = agent_runs w /\
  logger_exceptions w' = logger_exceptions w.

(** [n] slashes in a row. *)
Fixpoint slashes (n : nat) : string :=
  match n with
  | O => EmptyString
  | S n' => String "/"%char (slashes n')
  end.

(** The first request is answered with status 404 and a JSON body. *)
Definition not_found_env : Env :=
  {| settings := sample_settings;
     http_post := fun _ _ _ => PostReturns 404 (Ok (VDict [("detail", VStr "Not Found")]));
     entropy := fun _ => 0;
     time_time := fun _ => 1700000000 |}.

(** The knowledge-base search is answered with [{"kb_hits": null}]. *)
Definition null_hits_env : Env :=
  {| settings := sample_settings;
     http_post := fun _ _ _ => PostReturns 200 (Ok (VDict [("kb_hits", VNone)]));
     entropy := fun _ => 0;
     time_time := fun _ => 1700000000 |}.


(** Whether a handler, run on store [s], sends a request. *)
Definition sends_request (fn : handler) (kwargs : dict) (s : Store) : Prop :=
  (List.length (posts (world s))
   < List.length (posts (world (snd (fn kwargs s)))))%nat.

Definition sends_nothing (fn : handler) (kwargs : dict) (s : Store) : Prop :=
  posts (world (snd (fn kwargs s))) = posts (world s).

(** [state[key][field]], when both exist *)
Definition nested_field (key field : string) (st : dict) : option value :=
  match dict_get key st with
  | Some (VDict d) => dict_get field d
  | _ => None
  end.

(** A dictionary in which no key occurs twice, as every Python [dict]. *)
Definition unique_keys (d : dict) : Prop := NoDup (map fst d).




(** The reply of the mock Atlas server ([src/mcp/atlas.py]) to
    [/extract_entities], and an environment that always gives it. *)
Definition mock_entities (body : value) : value :=
  let field (k default : string) : value :=
    match body with
    | VDict d => py_or (or_none (dict_get k d)) (VStr default)
    | _ => VStr default
    end in
  VDict [("entities",
          VDict [("customer_name", field "customer_name" "Unknown");
                 ("email", field "email" "not_provided@example.com");
                 ("priority", field "priority" "NORMAL")])].

Definition mock_atlas_env : Env :=
  {| settings := sample_settings;
     http_post := fun _ _ body => PostReturns 200 (Ok (mock_entities body));
     entropy := fun _ => 0;
     time_time := fun _ => 1700000000 |}.

(** A computation that, run on any store, ends in a store that [R] relates
    to the one it started from, whether it returns or raises. *)
Definition preserves {A : Type} (R : Store -> Store -> Prop) (m : M A) : Prop :=
  forall (s s' : Store) (r : result A), m s = (r, s') -> R s s'.

(** The database and the error log are where they were. *)
Definition same_database (s s' : Store) : Prop :=
  persist_attempts (world s') = persist_attempts (world s) /\
  agent_runs (world s') = agent_runs (world s) /\
  logger_exceptions (world s') = logger_exceptions (world s).

(** [state[k]] is what it was. *)
Definition same_key (k : string) (s s' : Store) : Prop :=
  dict_get k (state s') = dict_get k (state s).

Definition same_payload : Store -> Store -> Prop := same_key "payload".

(** The keyword arguments the engine passes to a handler: none, or the
    extras of the sequential loop. *)
Definition engine_kwargs (input : dict) (sim : option string) (name : string)
    (kwargs : dict) : Prop :=
  kwargs = [] \/ kwargs = extra_for input sim name.

(** Every registered handler among [names] preserves [R] when the engine
    invokes it. *)
Definition handlers_preserve (env : Env) (input : dict) (sim : option string)
    (R : Store -> Store -> Prop) (names : list string) : Prop :=
  forall (name : string) (fn : handler) (kwargs : dict),
    In name names ->
    assoc name (ABILITY_LOOKUP env) = Some fn ->
    engine_kwargs input sim name kwargs ->
    preserves R (fn kwargs).

Definition decision_handlers : list string :=
  ["solution_evaluation"; "escalation_decision"; "update_payload"].

(** The names of the handlers a stage may invoke. *)
Definition stage_handlers (stage : Stage.t) : list string :=
  if String.eqb (Stage.mode stage) "deterministic" || String.eqb (Stage.mode stage) "human"
  then map StageAbility.name (Stage.abilities stage)
  else (decision_handlers ++ map StageAbility.name (Stage.abilities stage))%list.








(** A log line that opens a stage: it starts with [=]. *)
Definition is_header (line : string) : bool :=
  match line with
  | String c _ => Ascii.eqb c "="%char
  | EmptyString => false
  end.

(** The stage headers of a log, in the order of the log. *)
Definition headers (run_logs : list string) : list string := filter is_header run_logs.






(** The state dictionary is what it was. *)
Definition same_state (s s' : Store) : Prop := state s' = state s.

(** The handlers that only read the state. *)
Definition read_only_handlers : list string :=
  ["store_data"; "update_ticket"; "execute_api_calls"; "trigger_notifications";
   "output_payload"].

(** * Properties *)

(** ** Dictionaries *)

Lemma dict_get_set_same (k : string) (v : value) (d : dict) :
  dict_get k (dict_set k v d) = Some v.
Proof.
  induction d as [|[k' v'] d IH]; simpl.
  - now rewrite String.eqb_refl.
  - destruct (String.eqb k k') eqn:E; simpl; rewrite ?String.eqb_refl, ?E; auto.
Qed.

Lemma dict_get_set_other (k k' : string) (v : value) (d : dict) :
  k <> k' -> dict_get k (dict_set k' v d) = dict_get k d.
Proof.
  intros Hne. induction d as [|[k0 v0] d IH]; simpl.
  - destruct (String.eqb k k') eqn:E; auto. apply String.eqb_eq in E. contradiction.
  - destruct (String.eqb k' k0) eqn:E; simpl.
    + apply String.eqb_eq in E; subst k0.
      destruct (String.eqb k k') eqn:E'; auto.
      apply String.eqb_eq in E'. contradiction.
    + destruct (String.eqb k k0); auto.
Qed.

(** ** The decision policy *)

Lemma jitter_range (env : Env) (w : World) : -3 <= jitter_of env w <= 3.
Proof.
  unfold jitter_of, randint; cbn [fst].
  assert (H : 0 <= entropy env (draws w) mod (3 - -3 + 1) < 3 - -3 + 1)
    by (apply Z.mod_pos_bound; lia).
  lia.
Qed.

(** C2.  In a state whose knowledge-base hits are a list, the scoring
    ability returns and stores the score
    [clamp(0, 100, 70 + min(20, kbHits * 10) - (10 if HIGH else 0) + jitter)],
    where [kbHits] is the length of that list and [jitter] is the integer
    of [-3..3] it draws; the score lies in [0..100]. *)
Theorem solution_evaluation_score
    (env : Env) (kwargs st : dict) (w : World) (hits : list value) (p : dict) :
  kb_hits_expr st = Ok (VList hits) ->
  dict_get "payload" st = Some (VDict p) ->
  absent_or_dict "decision" st ->
  let jitter := jitter_of env w in
  let score := spec_score (Z.of_nat (List.length hits)) (is_high st) jitter in
  -3 <= jitter <= 3 /\
  0 <= score <= 100 /\
  exists s',
    solution_evaluation env kwargs {| state := st; world := w |}
      = (Ok (VDict [("score", VInt score)]), s') /\
    decision_field "score" (state s') = Some (VInt score).
Proof.
  intros Hkb Hp Hd jitter score.
  split; [apply jitter_range|].
  split; [unfold score, spec_score, clamp; lia|].
  unfold kb_hits_expr in Hkb.
  unfold solution_evaluation, bind, state_get, lift, state_getitem, on_world,
    state_setdefault, state_setitem, ret.
  cbn [state world].
  destruct (get (VDict st) "kb" (VDict [])) as [kb|e] eqn:Ekb; [|discriminate].
  rewrite Hkb. cbn [len].
  unfold getitem. rewrite Hp. cbn [get].
  unfold randint. cbn beta iota.
  assert (Hs : Z.max 0 (Z.min 100
             ((if eq_str match dict_get "priority" p with Some x => x | None => VNone end "HIGH"
               then 70 + Z.min 20 (Z.of_nat (List.length hits) * 10) - 10
               else 70 + Z.min 20 (Z.of_nat (List.length hits) * 10))
              + (-3 + entropy env (draws w) mod (3 - -3 + 1)))) = score).
  { unfold score, spec_score, clamp, jitter, jitter_of, randint, is_high, payload_field.
    rewrite Hp. cbn [fst].
    destruct (dict_get "priority" p) as [v|]; cbn [eq_str];
      [destruct (eq_str v "HIGH")|]; f_equal; f_equal; lia. }
  rewrite Hs. clearbody score. cbn [state world].
  destruct Hd as [Hd|[d Hd]]; unfold absent_or_dict in *; rewrite Hd;
    cbn [setitem state world];
    (eexists; split; [reflexivity|]);
    unfold decision_field; cbn [state]; rewrite !dict_get_set_same;
    try apply dict_get_set_same; reflexivity.
Qed.

(** ** The retry wrapper *)

Section Retry.
Variable env : Env.
Variable url : string.
Variable payload : value.

(** One round of the loop, spelled out. *)
Lemma attempts_step (fuel : nat) (a : Z) (w : World) :
  attempts env (S fuel) url payload a w =
  let w1 := record_post url payload w in
  match http_post env (List.length (posts w)) url payload with
  | PostRaises e =>
      if retry_if_exception_type e then
        if stop_after_attempt (RETRY_ATTEMPTS (settings env)) a then (Raise e, w1)
        else attempts env fuel url payload (a + 1) (record_sleep (backoff env a) w1)
      else (Raise e, w1)
  | PostReturns status_code json =>
      if 500 <=? status_code
      then (Raise (MCPClientError ("server error " ++ str_of_Z status_code)), w1)
      else match json with
           | Ok body => (Ok body, w1)
           | Raise e =>
               if retry_if_exception_type e then
                 if stop_after_attempt (RETRY_ATTEMPTS (settings env)) a then (Raise e, w1)
                 else attempts env fuel url payload (a + 1) (record_sleep (backoff env a) w1)
               else (Raise e, w1)
           end
  end.
Proof.
  cbn [attempts]. destruct (http_post env _ url payload) as [e|status json].
  - reflexivity.
  - destruct (500 <=? status); [reflexivity|]. destruct json; reflexivity.
Qed.

(** The fuel that [call] hands to the loop is never used up: with more of
    it the loop does the same. *)
Lemma attempts_fuel_enough (fuel : nat) :
  forall (a : Z) (w : World) (fuel' : nat),
    (Z.to_nat (RETRY_ATTEMPTS (settings env) - a) < fuel)%nat -> (fuel <= fuel')%nat ->
    attempts env fuel' url payload a w = attempts env fuel url payload a w.
Proof.
  induction fuel as [|fuel IH]; intros a w fuel' Hlt Hle; [lia|].
  destruct fuel' as [|fuel']; [lia|].
  rewrite !attempts_step. cbv zeta.
  assert (Hrec : stop_after_attempt (RETRY_ATTEMPTS (settings env)) a = false ->
            attempts env fuel' url payload (a + 1)
              (record_sleep (backoff env a) (record_post url payload w))
            = attempts env fuel url payload (a + 1)
                (record_sleep (backoff env a) (record_post url payload w))).
  { intros Hs. unfold stop_after_attempt in Hs. apply Z.leb_gt in Hs.
    apply IH; lia. }
  destruct (http_post env _ url payload) as [e|status json].
  - destruct (retry_if_exception_type e); [|reflexivity].
    destruct (stop_after_attempt _ a) eqn:Hs; [reflexivity|]. now apply Hrec.
  - destruct (500 <=? status); [reflexivity|].
    destruct json as [body|e]; [reflexivity|].
    destruct (retry_if_exception_type e); [|reflexivity].
    destruct (stop_after_attempt _ a) eqn:Hs; [reflexivity|]. now apply Hrec.
Qed.

Lemma posts_record_sleep (seconds : Z) (w : World) :
  posts (record_sleep seconds w) = posts w.
Proof. reflexivity. Qed.


End Retry.

(** With the default [RETRY_WAIT_SECONDS = 1] the delay after attempt
    [a >= 1] is [min(10, 2^(a-1))]. *)
Lemma backoff_default (env : Env) (a : Z) :
  RETRY_WAIT_SECONDS (settings env) = 1 -> 1 <= a ->
  backoff env a = Z.min 10 (1 * 2 ^ (a - 1)).
Proof.
  intros H Ha. unfold backoff, wait_exponential. rewrite H.
  assert (0 < 2 ^ (a - 1)) by (apply Z.pow_pos_nonneg; lia). lia.
Qed.

(** C3, as the code has it.  A response with a status of 500 or more is
    not retried: [call] raises [MCPClientError] on the first such
    response, after that one request and without any back-off delay. *)
Theorem server_error_propagates
    (env : Env) (self : BaseMCPClient) (ability : string) (payload : value)
    (path : option string) (w : World) (status : Z) (json : result value) :
  http_post env (List.length (posts w)) (url_of self ability path) payload
    = PostReturns status json ->
  500 <= status ->
  call env self ability payload path w
    = (Raise (MCPClientError ("server error " ++ str_of_Z status)),
       record_post (url_of self ability path) payload w).
Proof.
  intros Hpost Hstatus. unfold call. fold (url_of self ability path).
  rewrite attempts_step. cbv zeta. rewrite Hpost.
  replace (500 <=? status) with true by (symmetry; apply Z.leb_le; lia).
  reflexivity.
Qed.


(** C3 fails as stated: the first request is answered with status 503 and
    the next one would be answered with 200, yet [call] raises at once,
    after one request and no back-off delay. *)
Lemma server_error_not_retried :
  let url := "http://atlas:8002/enrich_records" in
  let body := VDict sample_input in
  http_post erroring_env 0 url body
    = PostReturns 503 (Ok (VDict [("detail", VStr "Service Unavailable")])) /\
  http_post erroring_env 1 url body = PostReturns 200 (Ok (VDict [("status", VStr "ok")])) /\
  fst (call erroring_env (atlas_client erroring_env) "enrich_records" body None fresh_world)
    = Raise (MCPClientError "server error 503") /\
  posts (snd (call erroring_env (atlas_client erroring_env) "enrich_records" body None
                fresh_world)) = [(url, body)] /\
  sleeps (snd (call erroring_env (atlas_client erroring_env) "enrich_records" body None
                 fresh_world)) = [].
Proof. repeat split; vm_compute; reflexivity. Qed.

Lemma server_error_propagates_witness :
  http_post erroring_env (List.length (posts fresh_world))
    (url_of (atlas_client erroring_env) "enrich_records" None) (VDict sample_input)
    = PostReturns 503 (Ok (VDict [("detail", VStr "Service Unavailable")])) /\
  500 <= 503 /\
  call erroring_env (atlas_client erroring_env) "enrich_records" (VDict sample_input)
    None fresh_world
    = (Raise (MCPClientError ("server error " ++ str_of_Z 503)),
       record_post (url_of (atlas_client erroring_env) "enrich_records" None)
         (VDict sample_input) fresh_world).
Proof.
  split; [reflexivity|]. split; [lia|].
  apply (server_error_propagates erroring_env (atlas_client erroring_env)
           "enrich_records" (VDict sample_input) None fresh_world 503
           (Ok (VDict [("detail", VStr "Service Unavailable")]))).
  - reflexivity.
  - lia.
Defined.



(** Whatever the outcome, [call] sends at least one request, and all its
    requests go to the same URL with the same body. *)
Lemma attempts_posts (env : Env) (url : string) (payload : value) (fuel : nat) :
  forall (a : Z) (w : World),
    exists k, posts (snd (attempts env (S fuel) url payload a w))
              = (posts w ++ repeat (url, payload) (S k))%list.
Proof.
  induction fuel as [|fuel IH]; intros a w; rewrite attempts_step; cbv zeta.
  - exists 0%nat.
    destruct (http_post env _ url payload) as [e|status json].
    + destruct (retry_if_exception_type e); [|reflexivity].
      destruct (stop_after_attempt _ a); reflexivity.
    + destruct (500 <=? status); [reflexivity|].
      destruct json as [body|e]; [reflexivity|].
      destruct (retry_if_exception_type e); [|reflexivity].
      destruct (stop_after_attempt _ a); reflexivity.
  - assert (Hrec : exists k,
        posts (snd (attempts env (S fuel) url payload (a + 1)
                      (record_sleep (backoff env a) (record_post url payload w))))
        = (posts w ++ repeat (url, payload) (S k))%list).
    { destruct (IH (a + 1) (record_sleep (backoff env a) (record_post url payload w)))
        as [k Hk].
      exists (S k). rewrite Hk. rewrite posts_record_sleep. cbn [posts record_post].
      rewrite <- app_assoc. reflexivity. }
    destruct (http_post env _ url payload) as [e|status json].
    + destruct (retry_if_exception_type e); [|now exists 0%nat].
      destruct (stop_after_attempt _ a); [now exists 0%nat|exact Hrec].
    + destruct (500 <=? status); [now exists 0%nat|].
      destruct json as [body|e]; [now exists 0%nat|].
      destruct (retry_if_exception_type e); [|now exists 0%nat].
      destruct (stop_after_attempt _ a); [now exists 0%nat|exact Hrec].
Qed.

Lemma call_posts (env : Env) (self : BaseMCPClient) (ability : string)
    (payload : value) (path : option string) (w : World) :
  exists k, posts (snd (call env self ability payload path w))
            = (posts w ++ repeat (url_of self ability path, payload) (S k))%list.
Proof. unfold call. apply attempts_posts. Qed.

(** ** Single abilities *)

Lemma solution_evaluation_score_witness :
  kb_hits_expr retrieved_state = Ok (VList [VStr "kb-101"; VStr "kb-201"]) /\
  absent_or_dict "decision" retrieved_state /\
  exists s',
    solution_evaluation (healthy_env 6) [] {| state := retrieved_state; world := fresh_world |}
      = (Ok (VDict [("score", VInt 83)]), s') /\
    decision_field "score" (state s') = Some (VInt 83).
Proof.
  split; [reflexivity|]. split; [left; reflexivity|].
  destruct (solution_evaluation_score (healthy_env 6) [] retrieved_state fresh_world
              [VStr "kb-101"; VStr "kb-201"] normalized_payload
              eq_refl eq_refl (or_introl eq_refl)) as (_ & _ & H).
  exact H.
Defined.

(** C10.  Invoked on a state whose decision score is 90 or more, or that
    has no score (the default is 100), the escalation ability sends no
    request, leaves the state as it is, [decision.escalated_to] included,
    and returns the status [not_escalated]. *)
Theorem escalation_decision_rechecks_score
    (env : Env) (kwargs st : dict) (w : World) :
  absent_or_dict "decision" st ->
  (decision_field "score" st = None \/
   exists z, decision_field "score" st = Some (VInt z) /\ 90 <= z) ->
  escalation_decision env kwargs {| state := st; world := w |}
    = (Ok (VDict [("status", VStr "not_escalated")]), {| state := st; world := w |}).
Proof.
  intros Hd Hscore.
  unfold escalation_decision, bind, state_get, lift, ret. cbn [state world get].
  unfold decision_field in Hscore.
  destruct Hd as [Hd|[d Hd]]; rewrite Hd in *; cbn [get dict_get].
  - reflexivity.
  - destruct Hscore as [Hs|(z & Hs & Hz)]; rewrite Hs; cbn [lt_int as_number].
    + reflexivity.
    + replace (z <? 90) with false by (symmetry; apply Z.ltb_ge; lia). reflexivity.
Qed.

Lemma escalation_decision_rechecks_score_witness :
  absent_or_dict "decision" (decided_state 93) /\
  (exists z, decision_field "score" (decided_state 93) = Some (VInt z) /\ 90 <= z) /\
  escalation_decision (healthy_env 6) [] {| state := decided_state 93; world := fresh_world |}
    = (Ok (VDict [("status", VStr "not_escalated")]),
       {| state := decided_state 93; world := fresh_world |}).
Proof.
  assert (Hd : absent_or_dict "decision" (decided_state 93))
    by (right; eexists; reflexivity).
  assert (Hs : exists z, decision_field "score" (decided_state 93) = Some (VInt z) /\ 90 <= z)
    by (exists 93; split; [reflexivity|lia]).
  split; [exact Hd|]. split; [exact Hs|].
  exact (escalation_decision_rechecks_score (healthy_env 6) [] (decided_state 93)
           fresh_world Hd (or_intror Hs)).
Defined.



Lemma dict_set_set_same (k : string) (v v' : value) (d : dict) :
  dict_set k v (dict_set k v' d) = dict_set k v d.
Proof.
  induction d as [|[k0 v0] d IH]; simpl.
  - now rewrite String.eqb_refl.
  - destruct (String.eqb k k0) eqn:E; simpl; rewrite ?String.eqb_refl, ?E; congruence.
Qed.





(** ** The engine *)

Section EngineFacts.
Variable env : Env.
Variable input : dict.
Variable sim : option string.

Lemma invoke_calls (name : string) (fn : handler) (extra : dict) (c : Ctx) :
  calls (snd (invoke name fn extra c)) = (calls c ++ [name])%list /\
  Agent.logs (snd (invoke name fn extra c)) = Agent.logs c.
Proof. unfold invoke. destruct (fn extra (store c)); split; reflexivity. Qed.

Lemma run_abilities_app (l1 l2 : list StageAbility.t) :
  forall c : Ctx,
    run_abilities env input sim (l1 ++ l2) c =
    match run_abilities env input sim l1 c with
    | (Ok _, c1) => run_abilities env input sim l2 c1
    | (Raise e, c1) => (Raise e, c1)
    end.
Proof.
  induction l1 as [|a l1 IH]; intros c; cbn [app run_abilities]; [reflexivity|].
  destruct (assoc (StageAbility.name a) (ABILITY_LOOKUP env)) as [fn|]; [|apply IH].
  destruct (invoke _ fn _ _) as [[res|e] c1]; [apply IH|reflexivity].
Qed.

(** The log only grows. *)
Lemma run_abilities_logs (l : list StageAbility.t) :
  forall (c c' : Ctx) (r : result unit),
    run_abilities env input sim l c = (r, c') ->
    exists more, Agent.logs c' = (Agent.logs c ++ more)%list.
Proof.
  induction l as [|a l IH]; intros c c' r H; cbn [run_abilities] in H.
  - inversion H; subst. exists []. now rewrite app_nil_r.
  - destruct (assoc (StageAbility.name a) (ABILITY_LOOKUP env)) as [fn|].
    + destruct (invoke _ fn _ _) as [[res|e] c1] eqn:Ei.
      * apply IH in H. destruct H as [more H].
        pose proof (invoke_calls (StageAbility.name a) fn
                      (extra_for input sim (StageAbility.name a))
                      (log ("-> ability " ++ StageAbility.name a) c)) as [_ Hl].
        rewrite Ei in Hl. cbn [snd] in Hl.
        eexists. rewrite H. cbn [Agent.logs log]. rewrite Hl. cbn [Agent.logs log].
        rewrite <- !app_assoc. reflexivity.
      * inversion H; subst.
        pose proof (invoke_calls (StageAbility.name a) fn
                      (extra_for input sim (StageAbility.name a))
                      (log ("-> ability " ++ StageAbility.name a) c)) as [_ Hl].
        rewrite Ei in Hl. cbn [snd] in Hl.
        eexists. rewrite Hl. cbn [Agent.logs log]. reflexivity.
    + apply IH in H. destruct H as [more H].
      eexists. rewrite H. cbn [Agent.logs log]. rewrite <- !app_assoc. reflexivity.
Qed.


Lemma run_stage_sequential (stage : Stage.t) (c : Ctx) :
  sequential stage ->
  run_stage env input sim stage c
  = run_abilities env input sim (Stage.abilities stage) (log (stage_header stage) c).
Proof.
  intros Hseq. unfold run_stage. fold (stage_header stage).
  assert (E : String.eqb (Stage.mode stage) "deterministic"
              || String.eqb (Stage.mode stage) "human" = true)
    by (destruct Hseq as [H|H]; rewrite H; reflexivity).
  rewrite E. reflexivity.
Qed.

End EngineFacts.




(** C5, as the code has it.  In a deterministic or human stage an ability
    name without implementation does not end the pass: once the abilities
    declared before it have returned, the engine logs the name, logs the
    missing implementation and goes on with the abilities declared after
    it, in the state the earlier ones left. *)
Theorem missing_ability_is_skipped
    (env : Env) (input : dict) (sim : option string) (stage : Stage.t)
    (before after : list StageAbility.t) (a : StageAbility.t) (c c1 : Ctx) :
  sequential stage ->
  Stage.abilities stage = (before ++ a :: after)%list ->
  assoc (StageAbility.name a) (ABILITY_LOOKUP env) = None ->
  run_abilities env input sim before (log (stage_header stage) c) = (Ok tt, c1) ->
  run_stage env input sim stage c
    = run_abilities env input sim after
        (log ("!! missing impl " ++ StageAbility.name a)
           (log ("-> ability " ++ StageAbility.name a) c1))
  /\
  In ("!! missing impl " ++ StageAbility.name a)
     (Agent.logs (snd (run_stage env input sim stage c)))
  /\
  (forall c', run_abilities env input sim after
                (log ("!! missing impl " ++ StageAbility.name a)
                   (log ("-> ability " ++ StageAbility.name a) c1)) = (Ok tt, c') ->
              run_stage env input sim stage c = (Ok tt, c')).
Proof.
  intros Hseq Habs Hmiss Hbefore.
  assert (Heq : run_stage env input sim stage c
                = run_abilities env input sim after
                    (log ("!! missing impl " ++ StageAbility.name a)
                       (log ("-> ability " ++ StageAbility.name a) c1))).
  { rewrite run_stage_sequential by exact Hseq.
    rewrite Habs, run_abilities_app, Hbefore. cbn [run_abilities].
    rewrite Hmiss. reflexivity. }
  split; [exact Heq|]. split.
  - rewrite Heq.
    destruct (run_abilities env input sim after _) as [r c'] eqn:Er.
    apply run_abilities_logs in Er. destruct Er as [more Hlogs].
    cbn [snd]. rewrite Hlogs. cbn [Agent.logs log].
    apply in_or_app. left. apply in_or_app. right. left. reflexivity.
  - intros c' H. rewrite Heq. exact H.
Qed.

Lemma missing_ability_is_skipped_witness :
  let r := run (healthy_env 0) db_up sample_input None [create_stage_extended] fresh_world in
  sequential create_stage_extended /\
  assoc "translate_reply" (ABILITY_LOOKUP (healthy_env 0)) = None /\
  In "!! missing impl translate_reply"
     (Agent.logs (snd (run_stage (healthy_env 0) sample_input None
                         create_stage_extended sample_ctx))) /\
  calls (snd r) = ["response_generation"; "store_data"] /\
  exists final run_logs,
    fst r = Ok (final, run_logs) /\ In "!! missing impl translate_reply" run_logs.
Proof.
  cbv zeta.
  assert (Hseq : sequential create_stage_extended) by (left; reflexivity).
  split; [exact Hseq|]. split; [reflexivity|]. split.
  - exact (proj1 (proj2
      (missing_ability_is_skipped (healthy_env 0) sample_input None create_stage_extended
         [StageAbility.make "response_generation" "COMMON" "Generate reply"]
         [StageAbility.make "store_data" "COMMON" "Store KB"]
         translate_reply sample_ctx _ Hseq eq_refl eq_refl (surjective_pairing _)))).
  - split; [vm_compute; reflexivity|].
    eexists. eexists. split; [vm_compute; reflexivity|].
    cbn. tauto.
Defined.

(** C5 fails as stated: a non-deterministic stage without rule passes over
    a name without implementation in silence, a stage of unknown mode is
    skipped as a whole, and the decision stage does not read its
    declaration; the runs return and their logs have no entry for the
    name. *)
Lemma missing_ability_without_log_entry :
  fst (run (healthy_env 0) db_up sample_input None [fallback_stage] fresh_world)
    = Ok ([("payload", VDict sample_input)], ["=== STAGE CREATE (non-deterministic) ==="]) /\
  fst (run (healthy_env 0) db_up sample_input None [parallel_stage] fresh_world)
    = Ok ([("payload", VDict sample_input)],
          ["=== STAGE CREATE (parallel) ==="; "Unknown stage mode parallel"]) /\
  registered (healthy_env 0) "translate_reply" = false /\
  (exists final run_logs,
     fst (run (healthy_env 6) db_up sample_input None
            [Stage.make "DECIDE" "non-deterministic" [translate_reply]
               (Some "score_then_maybe_escalate")] fresh_world)
       = Ok (final, run_logs) /\
     ~ In "!! missing impl translate_reply" run_logs).
Proof.
  split; [vm_compute; reflexivity|].
  split; [vm_compute; reflexivity|].
  split; [reflexivity|].
  eexists. eexists. split; [vm_compute; reflexivity|].
  cbn. intros H. repeat (destruct H as [H|H]; [discriminate H|]). exact H.
Qed.

(** ** The decision stage *)


Lemma lookup_solution_evaluation (env : Env) :
  lookup_item env "solution_evaluation" = Ok (solution_evaluation env).
Proof. reflexivity. Qed.

Lemma lookup_escalation_decision (env : Env) :
  lookup_item env "escalation_decision" = Ok (escalation_decision env).
Proof. reflexivity. Qed.

Lemma lookup_update_payload (env : Env) :
  lookup_item env "update_payload" = Ok (update_payload env).
Proof. reflexivity. Qed.














Section RunFacts.
Variable env : Env.
Variable input : dict.
Variable sim : option string.




End RunFacts.


Section DefaultRun.
Variable env : Env.
Variable input : dict.
Variable sim : option string.







End DefaultRun.



(** ** Failure and persistence *)

Lemma persist_run_attempts (db : Database) (input final : dict) (run_logs : list string)
    (w : World) :
  let w' := _persist_run db input final run_logs w in
  posts w' = posts w /\
  sleeps w' = sleeps w /\
  persist_attempts w' = S (persist_attempts w) /\
  match db (persist_attempts w) with
  | None =>
      agent_runs w' = (agent_runs w ++ [run_row input final run_logs])%list /\
      logger_exceptions w' = logger_exceptions w
  | Some _ =>
      agent_runs w' = agent_runs w /\
      logger_exceptions w'
        = (logger_exceptions w ++ ["failed to persist run (non-fatal)"])%list
  end.
Proof.
  unfold _persist_run. destruct (db (persist_attempts w)); cbn; auto.
Qed.



(** ** More on the client *)

Lemma only_requests_refl (w : World) : only_requests w w.
Proof. repeat split. Qed.

Lemma only_requests_trans (w1 w2 w3 : World) :
  only_requests w1 w2 -> only_requests w2 w3 -> only_requests w1 w3.
Proof.
  unfold only_requests. intros (A1 & A2 & A3 & A4 & A5) (B1 & B2 & B3 & B4 & B5).
  repeat split; congruence.
Qed.

(** What a loop of attempts does to the world, whatever the service
    answers: [S k] requests, [k] delays between them, and the number of
    requests stays within what [stop_after_attempt] allows. *)
Lemma attempts_bounds (env : Env) (url : string) (payload : value) (fuel : nat) :
  forall (a : Z) (w : World),
    (Z.to_nat (RETRY_ATTEMPTS (settings env) - a) <= fuel)%nat ->
    exists k : nat,
      posts (snd (attempts env (S fuel) url payload a w))
        = (posts w ++ repeat (url, payload) (S k))%list /\
      sleeps (snd (attempts env (S fuel) url payload a w))
        = (sleeps w ++ map (fun i => backoff env (a + Z.of_nat i)) (seq 0 k))%list /\
      Z.of_nat k <= Z.max 0 (RETRY_ATTEMPTS (settings env) - a) /\
      only_requests w (snd (attempts env (S fuel) url payload a w)).
Proof.
  induction fuel as [|fuel IH]; intros a w Hfuel; rewrite attempts_step; cbv zeta.
  - assert (Hstop : forall r : result value,
              exists k : nat,
                posts (snd (r, record_post url payload w))
                  = (posts w ++ repeat (url, payload) (S k))%list /\
                sleeps (snd (r, record_post url payload w))
                  = (sleeps w ++ map (fun i => backoff env (a + Z.of_nat i)) (seq 0 k))%list /\
                Z.of_nat k <= Z.max 0 (RETRY_ATTEMPTS (settings env) - a) /\
                only_requests w (snd (r, record_post url payload w))).
    { intros r. exists 0%nat. cbn. rewrite app_nil_r.
      repeat split; try reflexivity; lia. }
    assert (Hs : stop_after_attempt (RETRY_ATTEMPTS (settings env)) a = true)
      by (unfold stop_after_attempt; apply Z.leb_le; lia).
    rewrite Hs.
    destruct (http_post env _ url payload) as [e|status json].
    + destruct (retry_if_exception_type e); apply Hstop.
    + destruct (500 <=? status); [apply Hstop|].
      destruct json as [body|e]; [apply Hstop|].
      destruct (retry_if_exception_type e); apply Hstop.
  - assert (Hstop : forall r : result value,
              exists k : nat,
                posts (snd (r, record_post url payload w))
                  = (posts w ++ repeat (url, payload) (S k))%list /\
                sleeps (snd (r, record_post url payload w))
                  = (sleeps w ++ map (fun i => backoff env (a + Z.of_nat i)) (seq 0 k))%list /\
                Z.of_nat k <= Z.max 0 (RETRY_ATTEMPTS (settings env) - a) /\
                only_requests w (snd (r, record_post url payload w))).
    { intros r. exists 0%nat. cbn. rewrite app_nil_r.
      repeat split; try reflexivity; lia. }
    assert (Hrec : stop_after_attempt (RETRY_ATTEMPTS (settings env)) a = false ->
              exists k : nat,
                posts (snd (attempts env (S fuel) url payload (a + 1)
                              (record_sleep (backoff env a) (record_post url payload w))))
                  = (posts w ++ repeat (url, payload) (S k))%list /\
                sleeps (snd (attempts env (S fuel) url payload (a + 1)
                               (record_sleep (backoff env a) (record_post url payload w))))
                  = (sleeps w ++ map (fun i => backoff env (a + Z.of_nat i)) (seq 0 k))%list /\
                Z.of_nat k <= Z.max 0 (RETRY_ATTEMPTS (settings env) - a) /\
                only_requests w
                  (snd (attempts env (S fuel) url payload (a + 1)
                          (record_sleep (backoff env a) (record_post url payload w))))).
    { intros Hs. unfold stop_after_attempt in Hs. apply Z.leb_gt in Hs.
      destruct (IH (a + 1) (record_sleep (backoff env a) (record_post url payload w))
                  ltac:(lia))
        as (k & Hp & Hsl & Hk & Ho).
      exists (S k). rewrite Hp, Hsl. cbn [posts sleeps record_sleep record_post].
      rewrite <- !app_assoc. split; [reflexivity|]. split; [|split; [lia|exact Ho]].
      cbn [seq map app]. rewrite Z.add_0_r. do 2 f_equal.
      rewrite <- seq_shift, map_map. apply map_ext. intros i. f_equal. lia. }
    destruct (http_post env _ url payload) as [e|status json].
    + destruct (retry_if_exception_type e); [|apply Hstop].
      destruct (stop_after_attempt _ a) eqn:Hs; [apply Hstop|now apply Hrec].
    + destruct (500 <=? status); [apply Hstop|].
      destruct json as [body|e]; [apply Hstop|].
      destruct (retry_if_exception_type e); [|apply Hstop].
      destruct (stop_after_attempt _ a) eqn:Hs; [apply Hstop|now apply Hrec].
Qed.

(** X1.  Whatever the service answers, [call] sends at least one request
    and at most [max(1, RETRY_ATTEMPTS)], all to the same URL with the
    same body, sleeps one back-off delay between two requests and touches
    nothing else of the world. *)
Theorem call_attempt_bounds
    (env : Env) (self : BaseMCPClient) (ability : string) (payload : value)
    (path : option string) (w : World) :
  exists k : nat,
    posts (snd (call env self ability payload path w))
      = (posts w ++ repeat (url_of self ability path, payload) (S k))%list /\
    sleeps (snd (call env self ability payload path w))
      = (sleeps w ++ map (fun i => backoff env (1 + Z.of_nat i)) (seq 0 k))%list /\
    Z.of_nat (S k) <= Z.max 1 (RETRY_ATTEMPTS (settings env)) /\
    only_requests w (snd (call env self ability payload path w)).
Proof.
  unfold call. fold (url_of self ability path).
  destruct (attempts_bounds env (url_of self ability path) payload
              (Z.to_nat (RETRY_ATTEMPTS (settings env))) 1 w ltac:(lia))
    as (k & Hp & Hs & Hk & Ho).
  exists k. split; [exact Hp|]. split; [exact Hs|]. split; [lia|exact Ho].
Qed.

(** X2.  The back-off delay is never negative, never below
    [RETRY_WAIT_SECONDS], never above the larger of 10 and
    [RETRY_WAIT_SECONDS], and it does not decrease from one attempt to a
    later one. *)
Theorem backoff_bounds (env : Env) (a b : Z) :
  a <= b ->
  0 <= backoff env a /\
  RETRY_WAIT_SECONDS (settings env) <= backoff env a /\
  backoff env a <= Z.max 10 (RETRY_WAIT_SECONDS (settings env)) /\
  backoff env a <= backoff env b.
Proof.
  intros Hab. unfold backoff, wait_exponential.
  assert (Hpow : 2 ^ (a - 1) <= 2 ^ (b - 1)).
  { destruct (Z.lt_ge_cases (a - 1) 0) as [Hneg|Hpos].
    - rewrite (Z.pow_neg_r 2 (a - 1)) by exact Hneg.
      destruct (Z.lt_ge_cases (b - 1) 0) as [Hb|Hb].
      + rewrite (Z.pow_neg_r 2 (b - 1)) by exact Hb. lia.
      + apply Z.pow_nonneg. lia.
    - apply Z.pow_le_mono_r; lia. }
  lia.
Qed.

Lemma backoff_bounds_witness :
  1 <= 4 /\
  0 <= backoff (healthy_env 0) 1 /\
  RETRY_WAIT_SECONDS (settings (healthy_env 0)) <= backoff (healthy_env 0) 1 /\
  backoff (healthy_env 0) 1 <= Z.max 10 (RETRY_WAIT_SECONDS (settings (healthy_env 0))) /\
  backoff (healthy_env 0) 1 <= backoff (healthy_env 0) 4.
Proof.
  split; [lia|]. apply (backoff_bounds (healthy_env 0) 1 4). lia.
Defined.

(** X3.  A response with a status below 500, a 4xx status included, ends
    [call] at the first request: its decoded body is returned as it is,
    and a body that does not decode raises the decoding error without a
    retry. *)
Theorem answered_request_returns
    (env : Env) (self : BaseMCPClient) (ability : string) (payload : value)
    (path : option string) (w : World) (status : Z) (json : result value) :
  http_post env (List.length (posts w)) (url_of self ability path) payload
    = PostReturns status json ->
  status < 500 ->
  (forall e, json = Raise e -> retry_if_exception_type e = false) ->
  call env self ability payload path w
    = (json, record_post (url_of self ability path) payload w).
Proof.
  intros Hpost Hstatus Hjson. unfold call. fold (url_of self ability path).
  rewrite attempts_step. cbv zeta. rewrite Hpost.
  replace (500 <=? status) with false by (symmetry; apply Z.leb_gt; lia).
  destruct json as [body|e]; [reflexivity|].
  rewrite (Hjson e eq_refl). reflexivity.
Qed.

Lemma answered_request_returns_witness :
  call not_found_env (atlas_client not_found_env) "enrich_records" (VDict sample_input)
    None fresh_world
  = (Ok (VDict [("detail", VStr "Not Found")]),
     record_post (url_of (atlas_client not_found_env) "enrich_records" None)
       (VDict sample_input) fresh_world).
Proof.
  apply (answered_request_returns not_found_env (atlas_client not_found_env)
           "enrich_records" (VDict sample_input) None fresh_world 404).
  - reflexivity.
  - lia.
  - intros e H. discriminate H.
Defined.

Lemma append_slash_nonempty (t : string) : t ++ "/" <> "".
Proof. destruct t; discriminate. Qed.

Lemma rstrip_slash_no_trailing (s : string) :
  forall t : string, rstrip_slash s <> t ++ "/".
Proof.
  induction s as [|c s IH]; intros t; cbn [rstrip_slash].
  - intros H. symmetry in H. exact (append_slash_nonempty t H).
  - destruct (rstrip_slash s) as [|d r] eqn:Er.
    + destruct (Ascii.eqb c "/") eqn:Ec.
      * intros H. symmetry in H. exact (append_slash_nonempty t H).
      * destruct t as [|c' t']; cbn; intros H; inversion H; subst.
        -- rewrite Ascii.eqb_refl in Ec. discriminate.
        -- symmetry in H2. exact (append_slash_nonempty t' H2).
    + destruct t as [|c' t']; cbn; intros H; inversion H; subst.
      exact (IH t' H2).
Qed.

Lemma rstrip_slash_suffix (s : string) :
  exists n : nat, s = rstrip_slash s ++ slashes n.
Proof.
  induction s as [|c s [n IH]]; cbn [rstrip_slash].
  - exists 0%nat. reflexivity.
  - destruct (rstrip_slash s) as [|d r] eqn:Er.
    + destruct (Ascii.eqb c "/") eqn:Ec.
      * apply Ascii.eqb_eq in Ec. subst c. exists (S n). cbn. now rewrite IH at 1.
      * exists n. cbn. now rewrite IH at 1.
    + exists n. cbn. now rewrite IH at 1.
Qed.

Lemma rstrip_slash_fixed (s : string) :
  (forall t : string, s <> t ++ "/") -> rstrip_slash s = s.
Proof.
  induction s as [|c s IH]; intros Hs; cbn [rstrip_slash]; [reflexivity|].
  destruct s as [|d r].
  - cbn. destruct (Ascii.eqb c "/") eqn:Ec; [|reflexivity].
    apply Ascii.eqb_eq in Ec. subst c. exfalso. exact (Hs "" eq_refl).
  - rewrite IH.
    + reflexivity.
    + intros t Ht. apply (Hs (String c t)). cbn. now rewrite Ht.
Qed.

(** X4.  The base URL that a client keeps is the configured URL without
    its trailing slashes: it never ends with a slash, and building a
    client from it again changes nothing. *)
Theorem new_client_base_url (url : string) (timeout_seconds : Z) :
  let b := base_url (new_client url timeout_seconds) in
  (exists n : nat, url = b ++ slashes n) /\
  (forall t : string, b <> t ++ "/") /\
  base_url (new_client b timeout_seconds) = b.
Proof.
  cbn. split; [apply rstrip_slash_suffix|]. split; [apply rstrip_slash_no_trailing|].
  apply rstrip_slash_fixed, rstrip_slash_no_trailing.
Qed.

(** ** More on the abilities *)

(** X5. Whenever [solution_evaluation] returns, the score it returns and
    stores is [70 + min 20 (10 * hits) - (10 if the priority is "HIGH") +
    jitter] itself: the sum lies between 57 and 93, so the clamp to
    [0, 100] never changes it.  A high-priority ticket, and a ticket with
    fewer than two knowledge-base hits, always scores below 90. *)
Theorem score_is_never_clamped
    (env : Env) (kwargs : dict) (s s' : Store) (res : value) :
  solution_evaluation env kwargs s = (Ok res, s') ->
  exists (hits : value) (n : Z),
    kb_hits_expr (state s) = Ok hits /\
    len hits = Ok n /\
    let z := 70 + Z.min 20 (n * 10) - (if is_high (state s) then 10 else 0)
             + jitter_of env (world s) in
    res = VDict [("score", VInt z)] /\
    decision_field "score" (state s') = Some (VInt z) /\
    57 <= z <= 93 /\
    (is_high (state s) = true -> z < 90) /\
    (n < 2 -> z < 90).
Proof.
  destruct s as [st w].
  unfold solution_evaluation, bind, state_get, lift, state_getitem, on_world,
    state_setdefault, state_setitem, ret.
  unfold kb_hits_expr, is_high, payload_field, jitter_of.
  cbn [state world get].
  destruct (get _ "hits" (VList [])) as [hits|e]; [|discriminate].
  destruct (len hits) as [n|e] eqn:Elen; [|discriminate].
  assert (Hn : 0 <= n).
  { destruct hits; cbn in Elen; inversion Elen; lia. }
  cbn [state world]. unfold getitem.
  destruct (dict_get "payload" st) as [p|]; [|discriminate].
  destruct (get p "priority" VNone) as [priority|e] eqn:Ep; [|discriminate].
  destruct p as [| | | | |pd]; try discriminate.
  cbn [get] in Ep. inversion Ep; subst priority; clear Ep.
  pose proof (jitter_range env w) as Hj. unfold jitter_of in Hj.
  destruct (randint env (-3) 3 w) as [j w1]. cbn [fst] in Hj. cbn [fst state world].
  cbn beta iota.
  set (high := eq_str match dict_get "priority" pd with Some x => x | None => VNone end "HIGH").
  assert (Hhigh : match dict_get "priority" pd with
                  | Some v => eq_str v "HIGH"
                  | None => false
                  end = high)
    by (unfold high; destruct (dict_get "priority" pd); reflexivity).
  rewrite Hhigh.
  assert (Hz : Z.max 0 (Z.min 100 ((if high then 70 + Z.min 20 (n * 10) - 10
                                    else 70 + Z.min 20 (n * 10)) + j))
               = 70 + Z.min 20 (n * 10) - (if high then 10 else 0) + j)
    by (destruct high; lia).
  rewrite Hz.
  set (z := 70 + Z.min 20 (n * 10) - (if high then 10 else 0) + j).
  assert (Hrange : 57 <= z <= 93 /\ (high = true -> z < 90) /\ (n < 2 -> z < 90)).
  { unfold z. destruct high; repeat split; try lia; intros; try discriminate; lia. }
  destruct (dict_get "decision" st) as [d|] eqn:Ed; cbn [state world].
  - destruct d as [| | | | |dd]; try discriminate. cbn [setitem].
    intros H. inversion H; subst; clear H.
    exists hits, n. split; [reflexivity|]. split; [exact Elen|].
    split; [reflexivity|]. split; [|exact Hrange].
    unfold decision_field. cbn [state]. rewrite dict_get_set_same.
    apply dict_get_set_same.
  - cbn [setitem]. intros H. inversion H; subst; clear H.
    exists hits, n. split; [reflexivity|]. split; [exact Elen|].
    split; [reflexivity|]. split; [|exact Hrange].
    unfold decision_field. cbn [state]. rewrite dict_get_set_same. reflexivity.
Qed.

(** X6. When the stored knowledge-base hits have no length ([None], a
    boolean or a number, as a reply [{"kb_hits": null}] leaves them),
    [solution_evaluation] raises [TypeError] before it draws a random
    number or touches the state. *)
Theorem solution_evaluation_needs_sized_hits
    (env : Env) (kwargs : dict) (s : Store) (hits : value) (e : exn) :
  kb_hits_expr (state s) = Ok hits ->
  len hits = Raise e ->
  solution_evaluation env kwargs s = (Raise e, s) /\
  (type_name hits = "NoneType" \/ type_name hits = "bool" \/ type_name hits = "int") /\
  e = TypeError ("object of type '" ++ type_name hits ++ "' has no len()").
Proof.
  destruct s as [st w]. intros Hkb Hlen. split.
  - unfold solution_evaluation, bind, state_get, lift. cbn [state world get].
    unfold kb_hits_expr in Hkb. cbn [state get] in Hkb. rewrite Hkb. cbn beta iota.
    rewrite Hlen. reflexivity.
  - destruct hits; cbn in Hlen; try discriminate; inversion Hlen; subst; cbn; auto.
Qed.

Lemma score_is_never_clamped_witness :
  let s := {| state := retrieved_state; world := fresh_world |} in
  exists (hits : value) (n : Z),
    kb_hits_expr (state s) = Ok hits /\
    len hits = Ok n /\
    let z := 70 + Z.min 20 (n * 10) - (if is_high (state s) then 10 else 0)
             + jitter_of (healthy_env 6) (world s) in
    fst (solution_evaluation (healthy_env 6) [] s) = Ok (VDict [("score", VInt z)]) /\
    57 <= z <= 93 /\
    (is_high (state s) = true -> z < 90).
Proof.
  cbv zeta.
  pose (out := solution_evaluation (healthy_env 6) []
                 {| state := retrieved_state; world := fresh_world |}).
  assert (Hsol : out = (Ok (VDict [("score", VInt 83)]), snd out))
    by (vm_compute; reflexivity).
  destruct (score_is_never_clamped (healthy_env 6) []
              {| state := retrieved_state; world := fresh_world |} (snd out)
              (VDict [("score", VInt 83)]) Hsol)
    as (hits & n & H1 & H2 & H3 & _ & H5 & H6 & _).
  exists hits, n. split; [exact H1|]. split; [exact H2|].
  split; [|split; [exact H5|exact H6]].
  fold out. rewrite Hsol. cbn [fst]. f_equal. exact H3.
Defined.

Lemma solution_evaluation_needs_sized_hits_witness :
  let s1 := snd (knowledge_base_search null_hits_env [] sample_store) in
  kb_hits_expr (state s1) = Ok VNone /\
  solution_evaluation null_hits_env [] s1
    = (Raise (TypeError "object of type 'NoneType' has no len()"), s1).
Proof.
  cbv zeta. split; [reflexivity|].
  apply (solution_evaluation_needs_sized_hits null_hits_env []
           (snd (knowledge_base_search null_hits_env [] sample_store)) VNone
           (TypeError "object of type 'NoneType' has no len()")); reflexivity.
Defined.

(** What [escalation_decision] does below the threshold, as one equation. *)
Lemma escalation_decision_below
    (env : Env) (kwargs st : dict) (w : World) (z : Z) (p : value) (d : dict) :
  dict_get "decision" st = Some (VDict d) ->
  dict_get "score" d = Some (VInt z) ->
  z < 90 ->
  dict_get "payload" st = Some p ->
  escalation_decision env kwargs {| state := st; world := w |}
  = match call env (atlas_client env) "escalation_decision" p None w with
    | (Raise e, w') => (Raise e, {| state := st; world := w' |})
    | (Ok resp, w') =>
        match get resp "assigned_to" VNone with
        | Raise e => (Raise e, {| state := st; world := w' |})
        | Ok assigned =>
            (Ok (VDict [("status", VStr "escalated"); ("assigned_to", assigned)]),
             {| state := dict_set "decision" (VDict (dict_set "escalated_to" assigned d)) st;
                world := w' |})
        end
    end.
Proof.
  intros Ed Hscore Hz Hp.
  unfold escalation_decision, bind, state_get, state_getitem, state_setitem, lift, ret,
    atlas_call, on_world.
  cbn [state world get getitem]. rewrite Ed. cbn [get]. rewrite Hscore.
  cbn [lt_int as_number].
  replace (z <? 90) with true by (symmetry; apply Z.ltb_lt; lia).
  cbn [state world getitem]. rewrite Hp.
  destruct (call env (atlas_client env) "escalation_decision" p None w) as [[resp|e] w'];
    [|reflexivity].
  destruct (get resp "assigned_to" VNone) as [assigned|e]; [|reflexivity].
  cbn [state world getitem]. rewrite Ed. cbn [setitem state world]. reflexivity.
Qed.

(** What [close_ticket] does from the threshold on, as one equation. *)
Lemma close_ticket_eligible
    (env : Env) (kwargs st : dict) (w : World) (z : Z) (p d : dict) :
  dict_get "decision" st = Some (VDict d) ->
  dict_get "score" d = Some (VInt z) ->
  90 <= z ->
  dict_get "payload" st = Some (VDict p) ->
  close_ticket env kwargs {| state := st; world := w |}
  = match call env (atlas_client env) "close_ticket"
            (VDict [("ticket_id", or_none (dict_get "ticket_id" p))]) None w with
    | (Raise e, w') => (Raise e, {| state := st; world := w' |})
    | (Ok resp, w') => (Ok resp, {| state := closed_state st p; world := w' |})
    end.
Proof.
  intros Ed Hscore Hz Hp.
  unfold close_ticket, bind, state_get, state_getitem, state_setitem, lift, ret,
    atlas_call, on_world, or_none.
  cbn [state world get getitem]. rewrite Ed. cbn [get]. rewrite Hscore.
  cbn [ge_int as_number].
  replace (90 <=? z) with true by (symmetry; apply Z.leb_le; lia).
  cbn [state world getitem get]. rewrite Hp. cbn [get].
  destruct (call env (atlas_client env) "close_ticket" _ None w) as [[resp|e] w'];
    [|reflexivity].
  cbn [state world getitem]. rewrite Hp. reflexivity.
Qed.

(** Without a score of the right size neither of the two sends anything. *)
Lemma escalation_decision_idle
    (env : Env) (kwargs st : dict) (w : World) :
  absent_or_dict "decision" st ->
  (decision_field "score" st = None \/
   exists z, decision_field "score" st = Some (VInt z) /\ 90 <= z) ->
  escalation_decision env kwargs {| state := st; world := w |}
  = (Ok (VDict [("status", VStr "not_escalated")]), {| state := st; world := w |}).
Proof.
  intros Hd Hscore.
  unfold escalation_decision, bind, state_get, lift, ret. cbn [state world get].
  unfold decision_field in Hscore.
  destruct Hd as [Hd|[d Hd]]; rewrite Hd in *; cbn [get dict_get].
  - reflexivity.
  - destruct Hscore as [Hs|(z & Hs & Hz)]; rewrite Hs; cbn [lt_int as_number].
    + reflexivity.
    + replace (z <? 90) with false by (symmetry; apply Z.ltb_ge; lia). reflexivity.
Qed.

Lemma close_ticket_idle
    (env : Env) (kwargs st : dict) (w : World) :
  absent_or_dict "decision" st ->
  (decision_field "score" st = None \/
   exists z, decision_field "score" st = Some (VInt z) /\ z < 90) ->
  close_ticket env kwargs {| state := st; world := w |}
  = (Ok (VDict [("status", VStr "not_closed")]), {| state := st; world := w |}).
Proof.
  intros Hd Hscore.
  unfold close_ticket, bind, state_get, lift, ret. cbn [state world get].
  unfold decision_field in Hscore.
  destruct Hd as [Hd|[d Hd]]; rewrite Hd in *; cbn [get dict_get].
  - reflexivity.
  - destruct Hscore as [Hs|(z & Hs & Hz)]; rewrite Hs; cbn [ge_int as_number].
    + reflexivity.
    + replace (90 <=? z) with false by (symmetry; apply Z.leb_gt; lia). reflexivity.
Qed.

(** X7. With a score below 90, [escalation_decision] sends the payload
    to the ATLAS server; when the request is answered it stores the
    reply's [assigned_to] ([None] when the reply has none) under
    [decision.escalated_to], keeps the score, and returns status
    ["escalated"]; when the request raises, the state is left as it was. *)
Theorem escalation_records_assignee
    (env : Env) (kwargs st : dict) (w : World) (z : Z) (p : value) :
  decision_field "score" st = Some (VInt z) ->
  z < 90 ->
  dict_get "payload" st = Some p ->
  exists r w' k,
    call env (atlas_client env) "escalation_decision" p None w = (r, w') /\
    posts w' = (posts w ++ repeat (url_of (atlas_client env) "escalation_decision" None, p)
                             (S k))%list /\
    match r with
    | Raise e =>
        escalation_decision env kwargs {| state := st; world := w |}
          = (Raise e, {| state := st; world := w' |})
    | Ok resp =>
        match get resp "assigned_to" VNone with
        | Raise e =>
            escalation_decision env kwargs {| state := st; world := w |}
              = (Raise e, {| state := st; world := w' |})
        | Ok assigned =>
            exists st',
              escalation_decision env kwargs {| state := st; world := w |}
                = (Ok (VDict [("status", VStr "escalated"); ("assigned_to", assigned)]),
                   {| state := st'; world := w' |}) /\
              decision_field "escalated_to" st' = Some assigned /\
              decision_field "score" st' = Some (VInt z) /\
              dict_get "payload" st' = Some p
        end
    end.
Proof.
  intros Hscore Hz Hp.
  destruct (call env (atlas_client env) "escalation_decision" p None w) as [r w'] eqn:Ec.
  destruct (call_posts env (atlas_client env) "escalation_decision" p None w) as [k Hk].
  rewrite Ec in Hk. exists r, w', k. split; [reflexivity|]. split; [exact Hk|].
  unfold decision_field in Hscore.
  destruct (dict_get "decision" st) as [[| | | | |d]|] eqn:Ed; try discriminate.
  rewrite (escalation_decision_below env kwargs st w z p d Ed Hscore Hz Hp), Ec.
  destruct r as [resp|e]; [|reflexivity].
  destruct (get resp "assigned_to" VNone) as [assigned|e]; [|reflexivity].
  eexists. split; [reflexivity|].
  unfold decision_field. rewrite dict_get_set_same.
  split; [apply dict_get_set_same|]. split.
  - rewrite dict_get_set_other by discriminate. exact Hscore.
  - rewrite dict_get_set_other by discriminate. exact Hp.
Qed.

Lemma escalation_records_assignee_witness :
  let out := escalation_decision (healthy_env 6) []
               {| state := decided_state 77; world := fresh_world |} in
  fst out = Ok (VDict [("status", VStr "escalated");
                       ("assigned_to", VStr "human_agent_7")]) /\
  decision_field "escalated_to" (state (snd out)) = Some (VStr "human_agent_7") /\
  decision_field "score" (state (snd out)) = Some (VInt 77).
Proof.
  cbv zeta.
  destruct (escalation_records_assignee (healthy_env 6) [] (decided_state 77) fresh_world
              77 (VDict normalized_payload) eq_refl ltac:(lia) eq_refl)
    as (r & w' & k & Hc & _ & H).
  vm_compute in Hc. inversion Hc; subst r w'; clear Hc.
  cbn [get dict_get String.eqb Ascii.eqb Bool.eqb] in H.
  destruct H as (st' & Hrun & He & Hs & _).
  rewrite Hrun. cbn [fst snd state]. auto.
Defined.

Lemma call_sends (env : Env) (self : BaseMCPClient) (ability : string)
    (payload : value) (path : option string) (w : World) :
  (List.length (posts w)
   < List.length (posts (snd (call env self ability payload path w))))%nat.
Proof.
  destruct (call_posts env self ability payload path w) as [k Hk].
  rewrite Hk, length_app. cbn [repeat List.length]. lia.
Qed.

(** X8. On one state, [escalation_decision] and [close_ticket] never
    both send a request: below 90 only the escalation does, from 90 on
    only the closure does, and with no score recorded neither does (the
    two handlers default the missing score to 100 and to 0). *)
Theorem escalate_or_close_never_both
    (env : Env) (kwargs st : dict) (w : World) (p : dict) :
  absent_or_dict "decision" st ->
  dict_get "payload" st = Some (VDict p) ->
  let s := {| state := st; world := w |} in
  (forall z, decision_field "score" st = Some (VInt z) ->
     (z < 90 -> sends_request (escalation_decision env) kwargs s /\
                sends_nothing (close_ticket env) kwargs s) /\
     (90 <= z -> sends_nothing (escalation_decision env) kwargs s /\
                 sends_request (close_ticket env) kwargs s))
  /\
  (decision_field "score" st = None ->
   sends_nothing (escalation_decision env) kwargs s /\
   sends_nothing (close_ticket env) kwargs s).
Proof.
  intros Hd Hp s. subst s. split.
  - intros z Hscore.
    pose proof Hscore as Hs. unfold decision_field in Hs.
    destruct (dict_get "decision" st) as [[| | | | |d]|] eqn:Ed; try discriminate.
    split; intros Hz; split.
    + unfold sends_request.
      rewrite (escalation_decision_below env kwargs st w z (VDict p) d Ed Hs Hz Hp).
      pose proof (call_sends env (atlas_client env) "escalation_decision" (VDict p)
                    None w) as Hc.
      destruct (call env (atlas_client env) "escalation_decision" (VDict p) None w)
        as [[resp|e] w']; cbn [snd world] in *; [|exact Hc].
      destruct (get resp "assigned_to" VNone); exact Hc.
    + unfold sends_nothing. rewrite close_ticket_idle; [reflexivity|exact Hd|].
      right. exists z. split; [exact Hscore|exact Hz].
    + unfold sends_nothing. rewrite escalation_decision_idle; [reflexivity|exact Hd|].
      right. exists z. split; [exact Hscore|exact Hz].
    + unfold sends_request.
      rewrite (close_ticket_eligible env kwargs st w z p d Ed Hs Hz Hp).
      pose proof (call_sends env (atlas_client env) "close_ticket"
                    (VDict [("ticket_id", or_none (dict_get "ticket_id" p))]) None w) as Hc.
      destruct (call env (atlas_client env) "close_ticket" _ None w)
        as [[resp|e] w']; cbn [snd world] in *; exact Hc.
  - intros Hnone. split; unfold sends_nothing.
    + rewrite escalation_decision_idle; [reflexivity|exact Hd|left; exact Hnone].
    + rewrite close_ticket_idle; [reflexivity|exact Hd|left; exact Hnone].
Qed.

Lemma escalate_or_close_never_both_witness :
  let s := {| state := decided_state 77; world := fresh_world |} in
  sends_request (escalation_decision (healthy_env 0)) [] s /\
  sends_nothing (close_ticket (healthy_env 0)) [] s.
Proof.
  assert (Hd : absent_or_dict "decision" (decided_state 77))
    by (right; eexists; reflexivity).
  destruct (escalate_or_close_never_both (healthy_env 0) [] (decided_state 77)
              fresh_world normalized_payload Hd eq_refl) as [H _].
  destruct (H 77 eq_refl) as [Hlow _].
  apply Hlow. lia.
Defined.

Lemma dict_set_same_value (k : string) (v : value) (d : dict) :
  dict_get k d = Some v -> dict_set k v d = d.
Proof.
  induction d as [|[k0 v0] d IH]; cbn; [discriminate|].
  destruct (String.eqb k k0) eqn:E.
  - intros H. inversion H; subst. apply String.eqb_eq in E. now subst.
  - intros H. now rewrite IH.
Qed.

Lemma upper_char_idempotent (c : ascii) : upper_char (upper_char c) = upper_char c.
Proof.
  unfold upper_char.
  destruct ((97 <=? nat_of_ascii c) && (nat_of_ascii c <=? 122))%nat eqn:E.
  - apply andb_prop in E. destruct E as [E1 E2].
    apply Nat.leb_le in E1, E2.
    rewrite nat_ascii_embedding by lia.
    replace ((97 <=? nat_of_ascii c - 32) && (nat_of_ascii c - 32 <=? 122))%nat with false.
    + reflexivity.
    + symmetry. apply andb_false_iff. left. apply Nat.leb_gt. lia.
  - rewrite E. reflexivity.
Qed.

Lemma str_upper_idempotent (s : string) : str_upper (str_upper s) = str_upper s.
Proof.
  induction s as [|c s IH]; cbn; [reflexivity|].
  now rewrite upper_char_idempotent, IH.
Qed.

Lemma str_upper_nonempty (s : string) : s <> "" -> str_upper s <> "".
Proof. destruct s; [congruence|discriminate]. Qed.

Lemma upper_ok_inv (v : value) (u : string) :
  upper v = Ok u -> exists x, v = VStr x /\ u = str_upper x.
Proof. destruct v; cbn; try discriminate. intros H. inversion H. eauto. Qed.

Lemma truthy_py_or_normal (v : value) (x : string) :
  py_or v (VStr "NORMAL") = VStr x -> x <> "".
Proof.
  unfold py_or. destruct (truthy v) eqn:E.
  - intros ->. cbn in E. intros ->. discriminate.
  - intros H. inversion H. discriminate.
Qed.

(** X10. [normalize_fields] is idempotent: run again on the state it
    produced, it returns the same result and changes nothing.  The
    priority it leaves is a non-empty string in upper case. *)
Theorem normalize_fields_idempotent
    (kwargs kwargs' : dict) (s s1 : Store) (r : value) :
  normalize_fields kwargs s = (Ok r, s1) ->
  normalize_fields kwargs' s1 = (Ok r, s1) /\
  exists u, payload_field "priority" (state s1) = Some (VStr u) /\
            u <> "" /\ str_upper u = u.
Proof.
  destruct s as [st w].
  unfold normalize_fields at 1.
  unfold bind, state_getitem, state_setitem, lift, ret. cbn [state world].
  unfold getitem at 1.
  destruct (dict_get "payload" st) as [p|] eqn:Ep; [|discriminate].
  destruct (get p "priority" VNone) as [priority|e] eqn:Epr; [|discriminate].
  destruct p as [| | | | |pd]; try discriminate.
  destruct (upper (py_or priority (VStr "NORMAL"))) as [u|e] eqn:Eu; [|discriminate].
  apply upper_ok_inv in Eu. destruct Eu as (x & Ex & ->).
  pose proof (truthy_py_or_normal _ _ Ex) as Hx.
  cbn [setitem state world get].
  set (p1 := dict_set "priority" (VStr (str_upper x)) pd).
  set (st1 := dict_set "payload" (VDict p1) st).
  assert (Hsecond : forall (pf : dict),
            dict_get "priority" pf = Some (VStr (str_upper x)) ->
            (match dict_get "ticket_id" pf with
             | Some t => truthy t = true -> exists tu, t = VStr tu /\ str_upper tu = tu
             | None => True
             end) ->
            forall stf, dict_get "payload" stf = Some (VDict pf) ->
            normalize_fields kwargs' {| state := stf; world := w |}
            = (Ok status_ok, {| state := stf; world := w |})).
  { intros pf Hpri Hticket stf Hpay.
    unfold normalize_fields, bind, state_getitem, state_setitem, lift, ret.
    cbn [state world getitem]. rewrite Hpay. cbn [get]. rewrite Hpri.
    unfold py_or. cbn [truthy].
    replace (String.eqb (str_upper x) "") with false
      by (symmetry; apply String.eqb_neq, str_upper_nonempty, Hx).
    cbn [negb upper]. rewrite str_upper_idempotent. cbn [setitem state world].
    rewrite (dict_set_same_value "priority" _ pf Hpri).
    rewrite (dict_set_same_value "payload" _ stf Hpay).
    cbn [get]. destruct (dict_get "ticket_id" pf) as [t|] eqn:Et; cbn [truthy].
    - destruct (truthy t) eqn:Ett; [|reflexivity].
      destruct (Hticket eq_refl) as (tu & -> & Htu).
      cbn [state world getitem]. rewrite Et. cbn [setitem py_str state world].
      rewrite Htu, (dict_set_same_value "ticket_id" _ pf Et).
      rewrite (dict_set_same_value "payload" _ stf Hpay). reflexivity.
    - reflexivity. }
  assert (Hp1 : dict_get "priority" p1 = Some (VStr (str_upper x)))
    by apply dict_get_set_same.
  destruct (truthy match dict_get "ticket_id" p1 with Some t => t | None => VNone end)
    eqn:Ett.
  - unfold getitem. destruct (dict_get "ticket_id" p1) as [t|] eqn:Et; [|discriminate].
    cbn [setitem state world]. intros H. inversion H; subst; clear H.
    set (p2 := dict_set "ticket_id" (VStr (str_upper (py_str t))) p1).
    split.
    + apply (Hsecond p2).
      * unfold p2. rewrite dict_get_set_other by discriminate. exact Hp1.
      * unfold p2. rewrite dict_get_set_same. intros _. eexists. split; [reflexivity|].
        apply str_upper_idempotent.
      * apply dict_get_set_same.
    + exists (str_upper x). unfold payload_field. cbn [state].
      rewrite dict_get_set_same. unfold p2.
      rewrite dict_get_set_other by discriminate.
      split; [exact Hp1|]. split; [apply str_upper_nonempty, Hx|apply str_upper_idempotent].
  - intros H. inversion H; subst; clear H. split.
    + apply (Hsecond p1).
      * exact Hp1.
      * destruct (dict_get "ticket_id" p1) as [t|]; [|exact I].
        intros Ht. rewrite Ht in Ett. discriminate.
      * apply dict_get_set_same.
    + exists (str_upper x). unfold payload_field. cbn [state]. unfold st1.
      rewrite dict_get_set_same.
      split; [exact Hp1|]. split; [apply str_upper_nonempty, Hx|apply str_upper_idempotent].
Qed.

Lemma normalize_fields_idempotent_witness :
  let s1 := snd (normalize_fields [] sample_store) in
  normalize_fields [] sample_store = (Ok status_ok, s1) /\
  normalize_fields [] s1 = (Ok status_ok, s1) /\
  payload_field "priority" (state s1) = Some (VStr "HIGH") /\
  payload_field "ticket_id" (state s1) = Some (VStr "TCKT-1").
Proof.
  cbv zeta.
  assert (H : normalize_fields [] sample_store
              = (Ok status_ok, snd (normalize_fields [] sample_store)))
    by (vm_compute; reflexivity).
  split; [exact H|].
  split; [exact (proj1 (normalize_fields_idempotent [] [] _ _ _ H))|].
  split; vm_compute; reflexivity.
Defined.




(** What [extract_answer] does with a simulated answer that is not empty,
    as one equation. *)
Lemma extract_answer_simulated_run
    (env : Env) (st : dict) (w : World) (s : string) :
  s <> "" ->
  absent_or_list "answers" st ->
  extract_answer env [("simulate_human_answer", VStr s)] {| state := st; world := w |}
  = (Ok (VDict [("status", VStr "ok"); ("answer", VStr s)]),
     {| state := dict_set "answers" (VList (list_at "answers" st ++ [VStr s])) st;
        world := w |}).
Proof.
  intros Hs Ha.
  unfold extract_answer, bind, lift, ret, state_setdefault, state_setitem.
  cbn [get dict_get String.eqb Ascii.eqb Bool.eqb truthy state world].
  replace (String.eqb s "") with false by (symmetry; apply String.eqb_neq; exact Hs).
  cbn [negb get dict_get String.eqb Ascii.eqb Bool.eqb state world].
  unfold list_at. destruct Ha as [Ha|[xs Ha]]; rewrite Ha;
    cbn [has_append append state world].
  - rewrite dict_set_set_same. reflexivity.
  - reflexivity.
Qed.

(** X12. [store_answer] records the last captured answer: after
    [extract_answer] took a non-empty simulated answer, [latest_answer]
    is that answer; in general it is the last element of [answers], and
    [None] when [answers] is missing or empty. *)
Theorem latest_answer_is_last_captured (st : dict) (w : World) (kwargs : dict) :
  (forall (env : Env) (s : string),
     s <> "" ->
     absent_or_list "answers" st ->
     exists st2,
       store_answer kwargs
         (snd (extract_answer env [("simulate_human_answer", VStr s)]
                 {| state := st; world := w |}))
       = (Ok status_ok, {| state := st2; world := w |}) /\
       dict_get "latest_answer" st2 = Some (VStr s) /\
       dict_get "answers" st2 = Some (VList (list_at "answers" st ++ [VStr s])))
  /\
  (forall (xs : list value) (x : value),
     dict_get "answers" st = Some (VList (xs ++ [x])) ->
     store_answer kwargs {| state := st; world := w |}
     = (Ok status_ok, {| state := dict_set "latest_answer" x st; world := w |}))
  /\
  (dict_get "answers" st = None \/ dict_get "answers" st = Some (VList []) ->
   store_answer kwargs {| state := st; world := w |}
   = (Ok status_ok, {| state := dict_set "latest_answer" VNone st; world := w |})).
Proof.
  assert (Hlast : forall (st0 : dict) (xs : list value) (x : value),
            dict_get "answers" st0 = Some (VList (xs ++ [x])) ->
            store_answer kwargs {| state := st0; world := w |}
            = (Ok status_ok, {| state := dict_set "latest_answer" x st0; world := w |})).
  { intros st0 xs x Ha.
    unfold store_answer, bind, state_get, state_setitem, lift, ret.
    cbn [state world get]. rewrite Ha. cbn [truthy].
    destruct (xs ++ [x])%list as [|y ys] eqn:E; [destruct xs; discriminate|].
    rewrite <- E. cbn [last_item]. rewrite rev_app_distr. cbn [rev app].
    reflexivity. }
  split; [|split].
  - intros env s Hs Ha.
    rewrite (extract_answer_simulated_run env st w s Hs Ha). cbn [snd].
    eexists. split.
    + apply (Hlast _ (list_at "answers" st) (VStr s)). apply dict_get_set_same.
    + split.
      * apply dict_get_set_same.
      * rewrite dict_get_set_other by discriminate. apply dict_get_set_same.
  - intros xs x Ha. exact (Hlast st xs x Ha).
  - intros Ha.
    unfold store_answer, bind, state_get, state_setitem, lift, ret.
    cbn [state world get]. destruct Ha as [Ha|Ha]; rewrite Ha; reflexivity.
Qed.

Lemma latest_answer_is_last_captured_witness :
  exists st2,
    store_answer []
      (snd (extract_answer (healthy_env 0) [("simulate_human_answer", VStr sample_answer)]
              {| state := state sample_store; world := fresh_world |}))
    = (Ok status_ok, {| state := st2; world := fresh_world |}) /\
    dict_get "latest_answer" st2 = Some (VStr sample_answer) /\
    dict_get "answers" st2
      = Some (VList (list_at "answers" (state sample_store) ++ [VStr sample_answer])).
Proof.
  apply (proj1 (latest_answer_is_last_captured (state sample_store) fresh_world [])
           (healthy_env 0) sample_answer).
  - discriminate.
  - left. reflexivity.
Defined.

(** ** Merging dictionaries *)

Lemma dict_get_app_last (k k' : string) (v' : value) (d : dict) :
  dict_get k (d ++ [(k', v')])%list
  = match dict_get k d with
    | Some v => Some v
    | None => if String.eqb k k' then Some v' else None
    end.
Proof.
  induction d as [|[k0 v0] d IH]; cbn; [reflexivity|].
  destruct (String.eqb k k0); [reflexivity|exact IH].
Qed.

(** A lookup after [d.update(other)]: the last entry of [other] for the
    key, and the entry of [d] when [other] has none. *)
Lemma dict_get_update (k : string) (other : dict) :
  forall d : dict,
    dict_get k (dict_update d other)
    = match dict_get k (rev other) with
      | Some v => Some v
      | None => dict_get k d
      end.
Proof.
  unfold dict_update.
  induction other as [|[k' v'] other IH]; intros d; cbn [fold_left rev fst snd].
  - reflexivity.
  - rewrite IH, dict_get_app_last.
    destruct (dict_get k (rev other)); [reflexivity|].
    destruct (String.eqb k k') eqn:E.
    + apply String.eqb_eq in E. subst. apply dict_get_set_same.
    + apply dict_get_set_other. intros ->. rewrite String.eqb_refl in E. discriminate.
Qed.

Lemma dict_get_not_key (k : string) (d : dict) :
  ~ In k (map fst d) -> dict_get k d = None.
Proof.
  induction d as [|[k0 v0] d IH]; cbn; [reflexivity|].
  intros H. destruct (String.eqb k k0) eqn:E.
  - apply String.eqb_eq in E. subst. exfalso. apply H. now left.
  - apply IH. intros Hin. apply H. now right.
Qed.

Lemma dict_get_in (k : string) (v : value) (d : dict) :
  unique_keys d -> In (k, v) d -> dict_get k d = Some v.
Proof.
  unfold unique_keys.
  induction d as [|[k0 v0] d IH]; cbn; [intros _ []|].
  intros Hnd [Heq|Hin].
  - inversion Heq; subst. now rewrite String.eqb_refl.
  - inversion Hnd as [|? ? Hnot Hnd']; subst.
    destruct (String.eqb k k0) eqn:E.
    + apply String.eqb_eq in E. subst. exfalso. apply Hnot.
      apply (in_map fst) in Hin. exact Hin.
    + now apply IH.
Qed.

Lemma dict_get_some_in (k : string) (v : value) (d : dict) :
  dict_get k d = Some v -> In (k, v) d.
Proof.
  induction d as [|[k0 v0] d IH]; cbn; [discriminate|].
  destruct (String.eqb k k0) eqn:E.
  - intros H. inversion H; subst. apply String.eqb_eq in E. subst. now left.
  - intros H. right. now apply IH.
Qed.

Lemma dict_get_rev (k : string) (d : dict) :
  unique_keys d -> dict_get k (rev d) = dict_get k d.
Proof.
  intros Hnd.
  assert (Hrev : unique_keys (rev d)).
  { unfold unique_keys in *. rewrite map_rev. apply NoDup_rev. exact Hnd. }
  destruct (dict_get k d) as [v|] eqn:E.
  - apply dict_get_in; [exact Hrev|]. rewrite <- in_rev. now apply dict_get_some_in.
  - destruct (dict_get k (rev d)) as [v|] eqn:E'; [|reflexivity].
    apply dict_get_some_in in E'. rewrite <- in_rev in E'.
    rewrite (dict_get_in k v d Hnd E') in E. discriminate.
Qed.

(** Updating with entries the dictionary already has changes nothing. *)
Lemma dict_update_same (other : dict) :
  forall d : dict,
    (forall k v, In (k, v) other -> dict_get k d = Some v) ->
    dict_update d other = d.
Proof.
  unfold dict_update.
  induction other as [|[k v] other IH]; intros d H; cbn [fold_left fst snd].
  - reflexivity.
  - rewrite dict_set_same_value by (apply H; now left).
    apply IH. intros k' v' Hin. apply H. now right.
Qed.

Lemma dict_update_self (d : dict) : unique_keys d -> dict_update d d = d.
Proof.
  intros Hnd. apply dict_update_same. intros k v. now apply dict_get_in.
Qed.

(** X13. [accept_payload] merges the submitted fields into the payload:
    every submitted field ends up with its submitted value, every other
    field of the payload is kept.  On a payload that is the submitted one,
    as at the INTAKE stage of a run, it changes nothing. *)
Theorem accept_payload_merges_input
    (kwargs st input p : dict) (w : World) :
  dict_get "payload" st = Some (VDict p) ->
  get (VDict kwargs) "input_payload" (VDict []) = Ok (VDict input) ->
  unique_keys input ->
  exists p' : dict,
    accept_payload kwargs {| state := st; world := w |}
    = (Ok status_ok, {| state := dict_set "payload" (VDict p') st; world := w |}) /\
    (forall k v, dict_get k input = Some v -> dict_get k p' = Some v) /\
    (forall k, dict_get k input = None -> dict_get k p' = dict_get k p) /\
    (p = input -> accept_payload kwargs {| state := st; world := w |}
                  = (Ok status_ok, {| state := st; world := w |})).
Proof.
  intros Hp Hin Hnd.
  assert (Hrun : accept_payload kwargs {| state := st; world := w |}
                 = (Ok status_ok,
                    {| state := dict_set "payload" (VDict (dict_update p input)) st;
                       world := w |})).
  { unfold accept_payload, bind, lift, state_getitem, state_setitem, ret.
    rewrite Hin. cbn [state world getitem]. rewrite Hp. cbn [update]. reflexivity. }
  exists (dict_update p input). split; [exact Hrun|]. split; [|split].
  - intros k v Hk. rewrite dict_get_update, dict_get_rev, Hk by exact Hnd. reflexivity.
  - intros k Hk. rewrite dict_get_update, dict_get_rev, Hk by exact Hnd. reflexivity.
  - intros ->. rewrite Hrun, dict_update_self by exact Hnd.
    rewrite dict_set_same_value by exact Hp. reflexivity.
Qed.

Lemma accept_payload_merges_input_witness :
  accept_payload (extra_for sample_input None "accept_payload") sample_store
  = (Ok status_ok, sample_store).
Proof.
  assert (Hnd : unique_keys sample_input).
  { unfold unique_keys. cbn. repeat constructor; cbn; intuition discriminate. }
  destruct (accept_payload_merges_input (extra_for sample_input None "accept_payload")
              (state sample_store) sample_input sample_input fresh_world
              eq_refl eq_refl Hnd) as (p' & _ & _ & _ & H).
  exact (H eq_refl).
Defined.

(** ** [parse_request_text] *)









(** ** [extract_entities] *)

(** X15. [extract_entities] merges the entities of the reply into
    [state['entities']]: every entity of the reply is recorded with the
    reply's value, and entities recorded earlier under other names are
    kept. *)
Theorem extract_entities_merges_reply
    (env : Env) (kwargs st ents : dict) (w w' : World) (p resp : value) :
  dict_get "payload" st = Some p ->
  call env (atlas_client env) "extract_entities" p None w = (Ok resp, w') ->
  get resp "entities" (VDict []) = Ok (VDict ents) ->
  unique_keys ents ->
  absent_or_dict "entities" st ->
  exists known : dict,
    extract_entities env kwargs {| state := st; world := w |}
    = (Ok (VDict [("status", VStr "ok"); ("entities", VDict ents)]),
       {| state := dict_set "entities" (VDict known) st; world := w' |}) /\
    (forall k v, dict_get k ents = Some v -> dict_get k known = Some v) /\
    (forall k, dict_get k ents = None -> dict_get k known = nested_field "entities" k st).
Proof.
  intros Hp Hcall Hents Hnd Hd.
  assert (Hlook : forall d k,
            dict_get k (dict_update d ents)
            = match dict_get k ents with Some v => Some v | None => dict_get k d end).
  { intros d k. rewrite dict_get_update, dict_get_rev by exact Hnd. reflexivity. }
  unfold extract_entities, bind, lift, state_getitem, state_setdefault, state_setitem,
    ret, atlas_call, on_world, nested_field.
  cbn [state world getitem]. rewrite Hp. cbn [state world]. rewrite Hcall, Hents.
  cbn [state world].
  destruct Hd as [Hd|[d Hd]]; rewrite Hd; cbn [state world update].
  - exists (dict_update [] ents). rewrite dict_set_set_same.
    split; [reflexivity|]. split; intros k; [intros v|]; intros Hk;
      rewrite Hlook, Hk; reflexivity.
  - exists (dict_update d ents).
    split; [reflexivity|]. split; intros k; [intros v|]; intros Hk;
      rewrite Hlook, Hk; reflexivity.
Qed.

Lemma extract_entities_merges_reply_witness :
  exists (known : dict) (w' : World),
    extract_entities mock_atlas_env [] sample_store
    = (Ok (VDict [("status", VStr "ok");
                  ("entities", VDict [("customer_name", VStr "Unknown");
                                      ("email", VStr "not_provided@example.com");
                                      ("priority", VStr "high")])]),
       {| state := dict_set "entities" (VDict known) (state sample_store);
          world := w' |}) /\
    dict_get "customer_name" known = Some (VStr "Unknown").
Proof.
  pose (out := call mock_atlas_env (atlas_client mock_atlas_env) "extract_entities"
                 (VDict sample_input) None fresh_world).
  assert (Hcall : out = (Ok (mock_entities (VDict sample_input)), snd out))
    by (vm_compute; reflexivity).
  assert (Hnd : unique_keys [("customer_name", VStr "Unknown");
                             ("email", VStr "not_provided@example.com");
                             ("priority", VStr "high")]).
  { unfold unique_keys. cbn. repeat constructor; cbn; intuition discriminate. }
  destruct (extract_entities_merges_reply mock_atlas_env [] (state sample_store)
              _ fresh_world (snd out) (VDict sample_input)
              (mock_entities (VDict sample_input))
              eq_refl Hcall eq_refl Hnd (or_introl eq_refl))
    as (known & Hrun & Hin & _).
  exists known. eexists. split; [exact Hrun|]. apply Hin. reflexivity.
Defined.

(** ** What the handlers leave alone *)

Section Preservation.
Variable R : Store -> Store -> Prop.
Hypothesis R_refl : forall s, R s s.
Hypothesis R_trans : forall a b c, R a b -> R b c -> R a c.

Lemma preserves_ret {A : Type} (a : A) : preserves R (ret a).
Proof. intros s s' r H. inversion H; subst. apply R_refl. Qed.

Lemma preserves_lift {A : Type} (x : result A) : preserves R (lift x).
Proof. intros s s' r H. inversion H; subst. apply R_refl. Qed.

Lemma preserves_bind {A B : Type} (m : M A) (k : A -> M B) :
  preserves R m -> (forall a, preserves R (k a)) -> preserves R (bind m k).
Proof.
  intros Hm Hk s s' r H. unfold bind in H.
  destruct (m s) as [[a|e] s1] eqn:E.
  - apply (R_trans _ s1); [exact (Hm _ _ _ E)|exact (Hk a _ _ _ H)].
  - inversion H; subst. exact (Hm _ _ _ E).
Qed.

Lemma preserves_state_get (k : string) (default : value) :
  preserves R (state_get k default).
Proof. intros s s' r H. inversion H; subst. apply R_refl. Qed.

Lemma preserves_state_getitem (k : string) : preserves R (state_getitem k).
Proof. intros s s' r H. inversion H; subst. apply R_refl. Qed.

Lemma preserves_output_payload (kwargs : dict) : preserves R (output_payload kwargs).
Proof. intros s s' r H. inversion H; subst. apply R_refl. Qed.

End Preservation.

(** One request leaves everything but the requests and the delays as it
    was. *)
Lemma call_only_requests (env : Env) (self : BaseMCPClient) (ability : string)
    (payload : value) (path : option string) (w : World) :
  only_requests w (snd (call env self ability payload path w)).
Proof.
  unfold call.
  destruct (attempts_bounds env (base_url self ++ "/" ++ path_or path ability) payload
              (Z.to_nat (RETRY_ATTEMPTS (settings env))) 1 w ltac:(lia))
    as (k & _ & _ & _ & Ho).
  exact Ho.
Qed.

Lemma same_database_refl (s : Store) : same_database s s.
Proof. repeat split. Qed.

Lemma same_database_trans (a b c : Store) :
  same_database a b -> same_database b c -> same_database a c.
Proof.
  intros (H1 & H2 & H3) (H4 & H5 & H6).
  repeat split; etransitivity; eassumption.
Qed.

Lemma same_key_refl (k : string) (s : Store) : same_key k s s.
Proof. reflexivity. Qed.

Lemma same_key_trans (k : string) (a b c : Store) :
  same_key k a b -> same_key k b c -> same_key k a c.
Proof. unfold same_key. intros H1 H2. now rewrite H2. Qed.



Lemma same_database_setitem (k : string) (v : value) :
  preserves same_database (state_setitem k v).
Proof. intros s s' r H. inversion H; subst. repeat split. Qed.

Lemma same_database_setdefault (k : string) (v : value) :
  preserves same_database (state_setdefault k v).
Proof.
  intros s s' r H. unfold state_setdefault in H.
  destruct (dict_get k (state s)); inversion H; subst; repeat split.
Qed.

Lemma same_database_atlas_call (env : Env) (ability : string) (payload : value) :
  preserves same_database (atlas_call env ability payload).
Proof.
  intros s s' r H. unfold atlas_call, on_world in H.
  pose proof (call_only_requests env (atlas_client env) ability payload None (world s))
    as (_ & _ & H1 & H2 & H3).
  destruct (call env (atlas_client env) ability payload None (world s)) as [r0 w0].
  inversion H; subst. cbn [snd world] in *. repeat split; assumption.
Qed.

Lemma same_key_setitem (k k' : string) (v : value) :
  k' <> k -> preserves (same_key k) (state_setitem k' v).
Proof.
  intros Hk s s' r H. inversion H; subst. unfold same_key. cbn [state].
  apply dict_get_set_other. congruence.
Qed.

Lemma same_key_setdefault (k k' : string) (v : value) :
  k' <> k -> preserves (same_key k) (state_setdefault k' v).
Proof.
  intros Hk s s' r H. unfold state_setdefault in H. unfold same_key.
  destruct (dict_get k' (state s)); inversion H; subst; [reflexivity|].
  cbn [state]. apply dict_get_set_other. congruence.
Qed.

Lemma same_key_on_world (k : string) {A : Type} (f : World -> result A * World) :
  preserves (same_key k) (on_world f).
Proof.
  intros s s' r H. unfold on_world in H. destruct (f (world s)).
  inversion H; subst. reflexivity.
Qed.

(** Walks through the body of a handler: [refl] and [trans] are the
    reflexivity and transitivity of the relation, [leaf] settles the
    operations that write. *)
Ltac preserves_with refl trans leaf :=
  repeat (cbv beta zeta;
          first
            [ apply preserves_bind; [apply trans | | intros]
            | apply preserves_lift; apply refl
            | apply preserves_ret; apply refl
            | apply preserves_state_getitem; apply refl
            | apply preserves_state_get; apply refl
            | leaf
            | match goal with
              | |- preserves _ (if ?b then _ else _) => destruct b
              end ]).

Ltac database_leaf :=
  first [ apply same_database_setitem
        | apply same_database_setdefault
        | apply same_database_atlas_call ].

Ltac key_leaf :=
  first [ apply same_key_setitem; discriminate
        | apply same_key_setdefault; discriminate
        | apply same_key_on_world
        | unfold atlas_call; apply same_key_on_world ].

(** Settles [preserves (same_key k) (fn kwargs)] for a registered handler
    [fn] that has just been looked up. *)
Ltac handler_keeps_key k :=
  try (apply preserves_output_payload; apply same_key_refl);
  match goal with
  | |- preserves _ (?f _ _) => unfold f
  | |- preserves _ (?f _) => unfold f
  end;
  preserves_with (same_key_refl k) (same_key_trans k) key_leaf.

Lemma same_database_randint (env : Env) :
  preserves same_database
    (on_world (fun w => let (j, w') := randint env (-3) 3 w in (Ok j, w'))).
Proof. intros s s' r H. inversion H; subst. repeat split. Qed.

Lemma same_database_clock (env : Env) :
  preserves same_database
    (on_world (fun w => (Ok (time_time env (clock_reads w)), record_clock_read w))).
Proof. intros s s' r H. inversion H; subst. repeat split. Qed.

(** No registered handler touches the database or the error log. *)
Lemma lookup_same_database (env : Env) (name : string) (fn : handler) (kwargs : dict) :
  assoc name (ABILITY_LOOKUP env) = Some fn -> preserves same_database (fn kwargs).
Proof.
  unfold ABILITY_LOOKUP. cbn [assoc].
  repeat match goal with
         | |- (if ?b then _ else _) = _ -> _ =>
             destruct b;
             [ intros H; inversion H; subst; clear H;
               try (apply preserves_output_payload; apply same_database_refl);
               match goal with
               | |- preserves _ (?f _ _) => unfold f
               | |- preserves _ (?f _) => unfold f
               end;
               preserves_with same_database_refl same_database_trans database_leaf;
               first [apply same_database_randint | apply same_database_clock]
             | ]
         end.
  discriminate.
Qed.

(** Apart from [accept_payload], [normalize_fields] and [close_ticket], no
    registered handler changes the payload. *)
Lemma lookup_same_payload (env : Env) (name : string) (fn : handler) (kwargs : dict) :
  assoc name (ABILITY_LOOKUP env) = Some fn ->
  name <> "accept_payload" -> name <> "normalize_fields" -> name <> "close_ticket" ->
  preserves same_payload (fn kwargs).
Proof.
  unfold same_payload, ABILITY_LOOKUP. cbn [assoc]. intros H H1 H2 H3. revert H.
  repeat match goal with
         | |- (if String.eqb name ?k then _ else _) = _ -> _ =>
             destruct (String.eqb_spec name k) as [->|_];
             [ try congruence;
               intros H; inversion H; subst; clear H;
               handler_keeps_key "payload"
             | ]
         end.
  discriminate.
Qed.


(** X17. Apart from [accept_payload], [normalize_fields] and
    [close_ticket], no registered handler changes [state['payload']],
    whether it returns or raises. *)
Theorem payload_writers
    (env : Env) (name : string) (fn : handler) (kwargs : dict) (s s' : Store)
    (r : result value) :
  assoc name (ABILITY_LOOKUP env) = Some fn ->
  name <> "accept_payload" -> name <> "normalize_fields" -> name <> "close_ticket" ->
  fn kwargs s = (r, s') ->
  dict_get "payload" (state s') = dict_get "payload" (state s).
Proof.
  intros Ha H1 H2 H3 H.
  exact (lookup_same_payload env name fn kwargs Ha H1 H2 H3 _ _ _ H).
Qed.

Lemma payload_writers_witness :
  dict_get "payload"
    (state (snd (enrich_records (healthy_env 0) [] sample_store)))
  = Some (VDict sample_input).
Proof.
  apply (payload_writers (healthy_env 0) "enrich_records" (enrich_records (healthy_env 0)) []
           sample_store _ (fst (enrich_records (healthy_env 0) [] sample_store))).
  - reflexivity.
  - discriminate.
  - discriminate.
  - discriminate.
  - apply surjective_pairing.
Defined.

(** The test [stage.exec_rule == "score_then_maybe_escalate"]: any other
    rule takes the second branch. *)
Lemma exec_rule_other {A : Type} (a b : A) (rule : string) :
  match rule with
  | "score_then_maybe_escalate" => a
  | _ => b
  end = b \/ rule = "score_then_maybe_escalate".
Proof.
  revert rule.
  repeat (let c := fresh "c" in
          intros [|c rule]; [left; reflexivity|];
          destruct c as [b0 b1 b2 b3 b4 b5 b6 b7];
          destruct b0; [|try (left; reflexivity)]; try (left; reflexivity);
          destruct b1; [|try (left; reflexivity)]; try (left; reflexivity);
          destruct b2; [|try (left; reflexivity)]; try (left; reflexivity);
          destruct b3; [|try (left; reflexivity)]; try (left; reflexivity);
          destruct b4; [|try (left; reflexivity)]; try (left; reflexivity);
          destruct b5; [|try (left; reflexivity)]; try (left; reflexivity);
          destruct b6; [|try (left; reflexivity)]; try (left; reflexivity);
          destruct b7; [|try (left; reflexivity)]; try (left; reflexivity);
          revert rule).
  intros [|c rule]; [right; reflexivity|left; reflexivity].
Qed.

Lemma exec_rule_cases {A : Type} (P : A -> Prop) (rule : string) (a b : A) :
  P a -> P b ->
  P match rule with
    | "score_then_maybe_escalate" => a
    | _ => b
    end.
Proof.
  intros Ha Hb. destruct (exec_rule_other a b rule) as [-> | ->]; assumption.
Qed.

(** ** What a run leaves alone *)

Section EnginePreservation.
Variable env : Env.
Variable input : dict.
Variable sim : option string.
Variable R : Store -> Store -> Prop.
Hypothesis R_refl : forall s, R s s.
Hypothesis R_trans : forall a b c, R a b -> R b c -> R a c.

Lemma handlers_preserve_incl (l1 l2 : list string) :
  incl l1 l2 -> handlers_preserve env input sim R l2 -> handlers_preserve env input sim R l1.
Proof. intros Hi H name fn kwargs Hin. apply H. now apply Hi. Qed.

Lemma invoke_preserves (name : string) (fn : handler) (extra : dict) (c c' : Ctx)
    (r : result value) :
  preserves R (fn extra) ->
  invoke name fn extra c = (r, c') ->
  R (store c) (store c').
Proof.
  intros Hfn H. unfold invoke in H.
  destruct (fn extra (store c)) as [r0 s0] eqn:E.
  inversion H; subst. cbn [store]. exact (Hfn _ _ _ E).
Qed.

Lemma run_abilities_preserves (l : list StageAbility.t) :
  handlers_preserve env input sim R (map StageAbility.name l) ->
  forall (c c' : Ctx) (r : result unit),
    run_abilities env input sim l c = (r, c') -> R (store c) (store c').
Proof.
  induction l as [|a l IH]; intros Hl c c' r H; cbn [run_abilities] in H.
  - inversion H; subst. apply R_refl.
  - assert (Hl' : handlers_preserve env input sim R (map StageAbility.name l)).
    { apply (handlers_preserve_incl _ (map StageAbility.name (a :: l))); [|exact Hl].
      intros x Hx. now right. }
    destruct (assoc (StageAbility.name a) (ABILITY_LOOKUP env)) as [fn|] eqn:Ea.
    + destruct (invoke (StageAbility.name a) fn
                  (extra_for input sim (StageAbility.name a))
                  (log ("-> ability " ++ StageAbility.name a) c)) as [[res|e] c1] eqn:Ei.
      * apply (R_trans _ (store c1)).
        -- apply (invoke_preserves _ _ _ _ _ _
                    (Hl _ fn _ (or_introl eq_refl) Ea (or_intror eq_refl)) Ei).
        -- exact (IH Hl' _ _ _ H).
      * inversion H; subst.
        apply (invoke_preserves _ _ _ _ _ _
                 (Hl _ fn _ (or_introl eq_refl) Ea (or_intror eq_refl)) Ei).
    + exact (IH Hl' _ _ _ H).
Qed.

Lemma run_fallback_preserves (l : list StageAbility.t) :
  handlers_preserve env input sim R (map StageAbility.name l) ->
  forall (c c' : Ctx) (r : result unit),
    run_fallback env l c = (r, c') -> R (store c) (store c').
Proof.
  induction l as [|a l IH]; intros Hl c c' r H; cbn [run_fallback] in H.
  - inversion H; subst. apply R_refl.
  - assert (Hl' : handlers_preserve env input sim R (map StageAbility.name l)).
    { apply (handlers_preserve_incl _ (map StageAbility.name (a :: l))); [|exact Hl].
      intros x Hx. now right. }
    destruct (assoc (StageAbility.name a) (ABILITY_LOOKUP env)) as [fn|] eqn:Ea.
    + destruct (invoke (StageAbility.name a) fn [] c) as [[res|e] c1] eqn:Ei.
      * apply (R_trans _ (store c1)).
        -- apply (invoke_preserves _ _ _ _ _ _
                    (Hl _ fn _ (or_introl eq_refl) Ea (or_introl eq_refl)) Ei).
        -- exact (IH Hl' _ _ _ H).
      * inversion H; subst.
        apply (invoke_preserves _ _ _ _ _ _
                 (Hl _ fn _ (or_introl eq_refl) Ea (or_introl eq_refl)) Ei).
    + exact (IH Hl' _ _ _ H).
Qed.

Lemma score_then_maybe_escalate_preserves :
  handlers_preserve env input sim R decision_handlers ->
  forall (c c' : Ctx) (r : result unit),
    score_then_maybe_escalate env c = (r, c') -> R (store c) (store c').
Proof.
  intros Hl c c' r H. unfold score_then_maybe_escalate in H.
  rewrite lookup_solution_evaluation, lookup_escalation_decision,
    lookup_update_payload in H.
  assert (H1 : preserves R (solution_evaluation env []))
    by (apply (Hl "solution_evaluation"); [cbn; auto|reflexivity|now left]).
  assert (H2 : preserves R (escalation_decision env []))
    by (apply (Hl "escalation_decision"); [cbn; auto|reflexivity|now left]).
  assert (H3 : preserves R (update_payload env []))
    by (apply (Hl "update_payload"); [cbn; auto|reflexivity|now left]).
  destruct (invoke "solution_evaluation" (solution_evaluation env) [] c)
    as [[res|e] c1] eqn:E1;
    pose proof (invoke_preserves _ _ _ _ _ _ H1 E1) as R1;
    [|inversion H; subst; exact R1].
  destruct (get res "score" VNone) as [shown|e]; [|inversion H; subst; exact R1].
  cbn [store log state] in H.
  destruct (get (VDict (state (store c1))) "decision" (VDict [])) as [decision|e];
    [|inversion H; subst; exact R1].
  destruct (get decision "score" (VInt 100)) as [score|e];
    [|inversion H; subst; exact R1].
  destruct (lt_int score 90) as [[|]|e]; [| |inversion H; subst; exact R1].
  - destruct (invoke "escalation_decision" (escalation_decision env) [] _)
      as [[res2|e] c2] eqn:E2;
      pose proof (invoke_preserves _ _ _ _ _ _ H2 E2) as R2; cbn [store log] in R2;
      [|inversion H; subst; exact (R_trans _ _ _ R1 R2)].
    destruct (invoke "update_payload" (update_payload env) [] _)
      as [[res3|e] c3] eqn:E3;
      pose proof (invoke_preserves _ _ _ _ _ _ H3 E3) as R3; cbn [store log] in R3;
      inversion H; subst; exact (R_trans _ _ _ R1 (R_trans _ _ _ R2 R3)).
  - destruct (invoke "update_payload" (update_payload env) [] _)
      as [[res3|e] c3] eqn:E3;
      pose proof (invoke_preserves _ _ _ _ _ _ H3 E3) as R3; cbn [store log] in R3;
      inversion H; subst; exact (R_trans _ _ _ R1 R3).
Qed.

Lemma run_stage_preserves (stage : Stage.t) :
  handlers_preserve env input sim R (stage_handlers stage) ->
  forall (c c' : Ctx) (r : result unit),
    run_stage env input sim stage c = (r, c') -> R (store c) (store c').
Proof.
  intros Hl c c' r H. unfold run_stage in H. unfold stage_handlers in Hl.
  destruct (String.eqb (Stage.mode stage) "deterministic"
            || String.eqb (Stage.mode stage) "human").
  - exact (run_abilities_preserves _ Hl _ _ _ H).
  - assert (Ha : handlers_preserve env input sim R
                   (map StageAbility.name (Stage.abilities stage))).
    { apply (handlers_preserve_incl _ _ ltac:(apply incl_appr, incl_refl) Hl). }
    assert (Hd : handlers_preserve env input sim R decision_handlers).
    { apply (handlers_preserve_incl _ _ ltac:(apply incl_appl, incl_refl) Hl). }
    destruct (String.eqb (Stage.mode stage) "non-deterministic").
    + destruct (Stage.exec_rule stage) as [rule|].
      * revert H.
        apply (exec_rule_cases (fun x => x = (r, c') -> R (store c) (store c'))); intros H.
        -- exact (score_then_maybe_escalate_preserves Hd _ _ _ H).
        -- exact (run_fallback_preserves _ Ha _ _ _ H).
      * exact (run_fallback_preserves _ Ha _ _ _ H).
    + inversion H; subst. apply R_refl.
Qed.

Lemma run_stages_preserves (l : list Stage.t) :
  handlers_preserve env input sim R (flat_map stage_handlers l) ->
  forall (c c' : Ctx) (r : result unit),
    run_stages env input sim l c = (r, c') -> R (store c) (store c').
Proof.
  induction l as [|stage l IH]; intros Hl c c' r H; cbn [run_stages] in H.
  - inversion H; subst. apply R_refl.
  - assert (H1 : handlers_preserve env input sim R (stage_handlers stage)).
    { apply (handlers_preserve_incl _ (flat_map stage_handlers (stage :: l))); [|exact Hl].
      intros x Hx. cbn [flat_map]. apply in_or_app. now left. }
    assert (H2 : handlers_preserve env input sim R (flat_map stage_handlers l)).
    { apply (handlers_preserve_incl _ (flat_map stage_handlers (stage :: l))); [|exact Hl].
      intros x Hx. cbn [flat_map]. apply in_or_app. now right. }
    destruct (run_stage env input sim stage c) as [[u|e] c1] eqn:E1.
    + apply (R_trans _ (store c1)).
      * exact (run_stage_preserves _ H1 _ _ _ E1).
      * exact (IH H2 _ _ _ H).
    + inversion H; subst. exact (run_stage_preserves _ H1 _ _ _ E1).
Qed.

End EnginePreservation.

Lemma all_handlers_keep_database (env : Env) (input : dict) (sim : option string)
    (names : list string) :
  handlers_preserve env input sim same_database names.
Proof. intros name fn kwargs _ Ha _. exact (lookup_same_database env name fn kwargs Ha). Qed.

(** X16. Every run, whether it returns or fails and whatever its stages,
    makes exactly one attempt to store itself, and no handler writes to
    the database or to the error log: when the commit succeeds the table
    has exactly one more row, holding the input, the final state and the
    log of the run; when it fails the table is unchanged and the failure
    is logged. *)
Theorem run_persists_exactly_once
    (env : Env) (db : Database) (input : dict) (sim : option string)
    (stages : list Stage.t) (w : World) :
  let out := run env db input sim stages w in
  let w' := world (store (snd out)) in
  let failure := match fst out with
                 | Ok _ => []
                 | Raise _ => ["agent run failed"]
                 end in
  persist_attempts w' = S (persist_attempts w) /\
  match db (persist_attempts w) with
  | None =>
      agent_runs w'
        = (agent_runs w
           ++ [run_row input (state (store (snd out))) (Agent.logs (snd out))])%list /\
      logger_exceptions w' = (logger_exceptions w ++ failure)%list
  | Some _ =>
      agent_runs w' = agent_runs w /\
      logger_exceptions w'
        = (logger_exceptions w ++ failure ++ ["failed to persist run (non-fatal)"])%list
  end.
Proof.
  cbv zeta. unfold run.
  destruct (run_stages env input sim stages (initial_ctx input w)) as [[u|e] c] eqn:E;
    pose proof (run_stages_preserves env input sim same_database same_database_refl
                  same_database_trans stages
                  (all_handlers_keep_database env input sim _) _ _ _ E)
      as (Hp & Ha & Hl);
    cbn [initial_ctx store world] in Hp, Ha, Hl;
    cbn [fst snd persist note_failure log store world state Agent.logs].
  - pose proof (persist_run_attempts db input (state (store c)) (Agent.logs c)
                  (world (store c))) as (_ & _ & Hn & Hdb).
    cbv zeta in Hn, Hdb. rewrite Hn, Hp. split; [reflexivity|].
    rewrite Hp in Hdb. destruct (db (persist_attempts w)).
    + destruct Hdb as [H1 H2]. rewrite H1, H2, Ha, Hl. split; [reflexivity|].
      reflexivity.
    + destruct Hdb as [H1 H2]. rewrite H1, H2, Ha, Hl. split; [reflexivity|].
      now rewrite app_nil_r.
  - pose proof (persist_run_attempts db input (state (store c))
                  (Agent.logs c ++ [("error: " ++ exn_str e)%string])%list
                  (record_logger_exception "agent run failed" (world (store c))))
      as (_ & _ & Hn & Hdb).
    cbv zeta in Hn, Hdb. cbn [record_logger_exception persist_attempts] in Hn, Hdb.
    rewrite Hn, Hp. split; [reflexivity|].
    rewrite Hp in Hdb. destruct (db (persist_attempts w)).
    + destruct Hdb as [H1 H2]. rewrite H1, H2.
      cbn [record_logger_exception agent_runs logger_exceptions].
      rewrite Ha, Hl, <- app_assoc. split; reflexivity.
    + destruct Hdb as [H1 H2]. rewrite H1, H2.
      cbn [record_logger_exception agent_runs logger_exceptions].
      rewrite Ha, Hl. split; reflexivity.
Qed.

(** ** A run on a high-priority ticket *)



















(** ** The audit trail *)













(** ** The log of a run *)

Lemma headers_log (line : string) (c : Ctx) :
  headers (Agent.logs (log line c))
  = (headers (Agent.logs c) ++ (if is_header line then [line] else []))%list.
Proof. unfold headers, log. cbn [Agent.logs]. rewrite filter_app. reflexivity. Qed.

Lemma headers_invoke (name : string) (fn : handler) (extra : dict) (c c' : Ctx)
    (r : result value) :
  invoke name fn extra c = (r, c') -> headers (Agent.logs c') = headers (Agent.logs c).
Proof.
  intros H. pose proof (invoke_calls name fn extra c) as [_ Hl].
  rewrite H in Hl. cbn [snd] in Hl. now rewrite Hl.
Qed.

Section LogFacts.
Variable env : Env.
Variable input : dict.
Variable sim : option string.

Lemma run_abilities_headers (l : list StageAbility.t) :
  forall (c c' : Ctx) (r : result unit),
    run_abilities env input sim l c = (r, c') ->
    headers (Agent.logs c') = headers (Agent.logs c).
Proof.
  induction l as [|a l IH]; intros c c' r H; cbn [run_abilities] in H.
  - now inversion H.
  - destruct (assoc (StageAbility.name a) (ABILITY_LOOKUP env)) as [fn|].
    + destruct (invoke _ fn _ _) as [[res|e] c1] eqn:Ei;
        apply headers_invoke in Ei; rewrite headers_log in Ei; cbn [is_header append] in Ei;
        cbn [Ascii.eqb Bool.eqb] in Ei; rewrite app_nil_r in Ei.
      * apply IH in H. rewrite headers_log in H. cbn in H. rewrite app_nil_r in H.
        congruence.
      * inversion H; subst. exact Ei.
    + apply IH in H. rewrite !headers_log in H. cbn in H. now rewrite !app_nil_r in H.
Qed.

Lemma run_fallback_headers (l : list StageAbility.t) :
  forall (c c' : Ctx) (r : result unit),
    run_fallback env l c = (r, c') ->
    headers (Agent.logs c') = headers (Agent.logs c).
Proof.
  induction l as [|a l IH]; intros c c' r H; cbn [run_fallback] in H.
  - now inversion H.
  - destruct (assoc (StageAbility.name a) (ABILITY_LOOKUP env)) as [fn|].
    + destruct (invoke _ fn _ _) as [[res|e] c1] eqn:Ei; apply headers_invoke in Ei.
      * apply IH in H. rewrite headers_log in H. cbn in H. rewrite app_nil_r in H.
        congruence.
      * inversion H; subst. exact Ei.
    + now apply IH in H.
Qed.

Lemma score_then_maybe_escalate_headers (c c' : Ctx) (r : result unit) :
  score_then_maybe_escalate env c = (r, c') ->
  headers (Agent.logs c') = headers (Agent.logs c).
Proof.
  intros H. unfold score_then_maybe_escalate in H.
  rewrite lookup_solution_evaluation, lookup_escalation_decision,
    lookup_update_payload in H.
  destruct (invoke "solution_evaluation" (solution_evaluation env) [] c)
    as [[res|e] c1] eqn:E1; apply headers_invoke in E1;
    [|inversion H; subst; exact E1].
  destruct (get res "score" VNone) as [shown|e]; [|inversion H; subst; exact E1].
  cbn [store log state] in H.
  destruct (get (VDict (state (store c1))) "decision" (VDict [])) as [decision|e];
    [|inversion H; subst; rewrite headers_log; cbn; now rewrite app_nil_r].
  destruct (get decision "score" (VInt 100)) as [score|e];
    [|inversion H; subst; rewrite headers_log; cbn; now rewrite app_nil_r].
  destruct (lt_int score 90) as [[|]|e];
    [| |inversion H; subst; rewrite headers_log; cbn; now rewrite app_nil_r].
  - destruct (invoke "escalation_decision" (escalation_decision env) [] _)
      as [[res2|e] c2] eqn:E2; apply headers_invoke in E2;
      rewrite headers_log in E2; cbn in E2; rewrite app_nil_r in E2;
      [|inversion H; subst; congruence].
    destruct (invoke "update_payload" (update_payload env) [] _)
      as [[res3|e] c3] eqn:E3; apply headers_invoke in E3;
      rewrite headers_log in E3; cbn in E3; rewrite app_nil_r in E3;
      inversion H; subst; congruence.
  - destruct (invoke "update_payload" (update_payload env) [] _)
      as [[res3|e] c3] eqn:E3; apply headers_invoke in E3;
      rewrite !headers_log in E3; cbn in E3; rewrite !app_nil_r in E3;
      inversion H; subst; congruence.
Qed.

Lemma run_stage_headers (stage : Stage.t) (c c' : Ctx) (r : result unit) :
  run_stage env input sim stage c = (r, c') ->
  headers (Agent.logs c') = (headers (Agent.logs c) ++ [stage_header stage])%list.
Proof.
  intros H. unfold run_stage in H. fold (stage_header stage) in H.
  assert (Hh : headers (Agent.logs (log (stage_header stage) c))
               = (headers (Agent.logs c) ++ [stage_header stage])%list)
    by (rewrite headers_log; reflexivity).
  destruct (String.eqb (Stage.mode stage) "deterministic"
            || String.eqb (Stage.mode stage) "human").
  - apply run_abilities_headers in H. congruence.
  - destruct (String.eqb (Stage.mode stage) "non-deterministic").
    + destruct (Stage.exec_rule stage) as [rule|].
      * revert H.
        apply (exec_rule_cases
                 (fun x => x = (r, c') ->
                           headers (Agent.logs c')
                           = (headers (Agent.logs c) ++ [stage_header stage])%list));
          intros H.
        -- apply score_then_maybe_escalate_headers in H. congruence.
        -- apply run_fallback_headers in H. congruence.
      * apply run_fallback_headers in H. congruence.
    + inversion H; subst. rewrite headers_log, Hh. cbn. now rewrite app_nil_r.
Qed.

Lemma run_stages_headers (l : list Stage.t) :
  forall (c c' : Ctx) (r : result unit),
    run_stages env input sim l c = (r, c') ->
    exists k : nat,
      (k <= List.length l)%nat /\
      headers (Agent.logs c')
      = (headers (Agent.logs c) ++ map stage_header (firstn k l))%list /\
      (r = Ok tt -> k = List.length l) /\
      (forall e, r = Raise e -> (1 <= k)%nat).
Proof.
  induction l as [|stage l IH]; intros c c' r H; cbn [run_stages] in H.
  - inversion H; subst. exists 0%nat. cbn. rewrite app_nil_r.
    repeat split; try lia. discriminate.
  - destruct (run_stage env input sim stage c) as [[u|e] c1] eqn:E1;
      apply run_stage_headers in E1.
    + destruct (IH _ _ _ H) as (k & Hk & Hh & Hok & Hraise).
      exists (S k). cbn [List.length firstn map].
      split; [lia|]. split; [|split].
      * rewrite Hh, E1, <- app_assoc. reflexivity.
      * intros Hr. now rewrite (Hok Hr).
      * intros; lia.
    + inversion H; subst. exists 1%nat. cbn [List.length firstn map].
      split; [lia|]. split; [exact E1|]. split; [discriminate|intros; lia].
Qed.

End LogFacts.

(** X19. The log of a run holds one header per stage entered, in the
    order of the stages, and no other line that starts like a header.  A
    run that returns shows every stage; a run that fails has entered at
    least one stage and its log ends with the error line. *)
Theorem log_shows_stages_in_order
    (env : Env) (db : Database) (input : dict) (sim : option string)
    (stages : list Stage.t) (w : World) :
  let out := run env db input sim stages w in
  exists k : nat,
    (k <= List.length stages)%nat /\
    headers (Agent.logs (snd out)) = map stage_header (firstn k stages) /\
    (forall final run_logs,
       fst out = Ok (final, run_logs) ->
       run_logs = Agent.logs (snd out) /\ headers run_logs = map stage_header stages) /\
    (forall e,
       fst out = Raise e ->
       (1 <= k)%nat /\
       exists earlier, Agent.logs (snd out)
                       = (earlier ++ [("error: " ++ exn_str e)%string])%list).
Proof.
  cbv zeta. unfold run.
  destruct (run_stages env input sim stages (initial_ctx input w)) as [[[]|e] c] eqn:E;
    destruct (run_stages_headers env input sim stages _ _ _ E) as (k & Hk & Hh & Hok & Hr);
    cbn [initial_ctx Agent.logs headers filter app] in Hh;
    cbn [fst snd persist note_failure log Agent.logs store].
  - exists k. split; [exact Hk|]. split; [exact Hh|]. split.
    + intros final run_logs H. inversion H; subst.
      split; [reflexivity|]. rewrite Hh, (Hok eq_refl), firstn_all. reflexivity.
    + discriminate.
  - exists k. split; [exact Hk|]. split; [|split].
    + unfold headers in *. rewrite filter_app, Hh. cbn. apply app_nil_r.
    + discriminate.
    + intros e0 H. inversion H; subst e0. split; [exact (Hr e eq_refl)|].
      eexists. reflexivity.
Qed.

(** ** The fallback branch *)





Lemma log_shows_stages_in_order_witness :
  let failed := run (no_escalation_env 6) db_up sample_input (Some sample_answer)
                  STAGE_CONFIG fresh_world in
  fst failed = Raise (MCPClientError "server error 503") /\
  exists k : nat,
    (1 <= k)%nat /\
    headers (Agent.logs (snd failed)) = map stage_header (firstn k STAGE_CONFIG) /\
    exists earlier,
      Agent.logs (snd failed) = (earlier ++ ["error: server error 503"])%list.
Proof.
  cbv zeta.
  pose (failed := run (no_escalation_env 6) db_up sample_input (Some sample_answer)
                    STAGE_CONFIG fresh_world).
  assert (Hf : fst failed = Raise (MCPClientError "server error 503"))
    by (vm_compute; reflexivity).
  destruct (log_shows_stages_in_order (no_escalation_env 6) db_up sample_input
              (Some sample_answer) STAGE_CONFIG fresh_world)
    as (k & _ & Hh & _ & Hraise).
  fold failed in Hh, Hraise. destruct (Hraise _ Hf) as (Hk & earlier & He).
  fold failed. split; [exact Hf|]. exists k. split; [exact Hk|]. split; [exact Hh|].
  exists earlier. exact He.
Defined.

(** ** Escalated or closed *)












(** ** The agent's stages *)

(** X21. An agent never has an empty pipeline: a non-empty list of
    stages is taken as given, an empty list or none yields
    [STAGE_CONFIG]. *)
Theorem new_agent_never_empty (stages : option (list Stage.t)) :
  new_agent stages <> [] /\
  (forall l, stages = Some l -> l <> [] -> new_agent stages = l) /\
  (stages = None \/ stages = Some [] -> new_agent stages = STAGE_CONFIG).
Proof.
  split; [|split].
  - destruct stages as [[|s l]|]; intros H; cbn [new_agent] in H; discriminate H.
  - intros l -> Hl. destruct l; [now contradiction Hl|reflexivity].
  - intros [-> | ->]; reflexivity.
Qed.

Lemma new_agent_never_empty_witness :
  new_agent (Some [wait_stage]) = [wait_stage] /\
  new_agent (Some []) = STAGE_CONFIG.
Proof.
  split.
  - apply (proj1 (proj2 (new_agent_never_empty (Some [wait_stage]))) [wait_stage] eq_refl).
    discriminate.
  - apply (proj2 (proj2 (new_agent_never_empty (Some [])))). right. reflexivity.
Defined.

(** ** Handlers that only read *)

Lemma same_state_refl (s : Store) : same_state s s.
Proof. reflexivity. Qed.

Lemma same_state_trans (a b c : Store) :
  same_state a b -> same_state b c -> same_state a c.
Proof. unfold same_state. intros H1 H2. now rewrite H2. Qed.

Lemma same_state_on_world {A : Type} (f : World -> result A * World) :
  preserves same_state (on_world f).
Proof.
  intros s s' r H. unfold on_world in H. destruct (f (world s)).
  inversion H; subst. reflexivity.
Qed.

Ltac state_leaf := unfold atlas_call; apply same_state_on_world.

(** X24. [store_data], [update_ticket], [execute_api_calls],
    [trigger_notifications] and [output_payload] never change the state,
    whether they return or raise; [store_data] and [output_payload] leave
    the world alone as well. *)
Theorem read_only_handlers_keep_state
    (env : Env) (name : string) (fn : handler) (kwargs : dict) (s s' : Store)
    (r : result value) :
  In name read_only_handlers ->
  assoc name (ABILITY_LOOKUP env) = Some fn ->
  fn kwargs s = (r, s') ->
  state s' = state s /\
  (name = "store_data" \/ name = "output_payload" -> world s' = world s).
Proof.
  intros Hin Ha H. cbn in Hin.
  destruct Hin as [<-|[<-|[<-|[<-|[<-|[]]]]]]; cbn in Ha; inversion Ha; subst fn.
  - inversion H; subst. split; [reflexivity|]. reflexivity.
  - split; [|intros [?|?]; discriminate]. revert s s' r H.
    change (preserves same_state (update_ticket env kwargs)). unfold update_ticket.
    preserves_with same_state_refl same_state_trans state_leaf.
  - split; [|intros [?|?]; discriminate]. revert s s' r H.
    change (preserves same_state (execute_api_calls env kwargs)). unfold execute_api_calls.
    preserves_with same_state_refl same_state_trans state_leaf.
  - split; [|intros [?|?]; discriminate]. revert s s' r H.
    change (preserves same_state (trigger_notifications env kwargs)).
    unfold trigger_notifications.
    preserves_with same_state_refl same_state_trans state_leaf.
  - inversion H; subst. split; [reflexivity|]. reflexivity.
Qed.

Lemma read_only_handlers_keep_state_witness :
  state (snd (update_ticket (healthy_env 0) [] sample_store)) = state sample_store.
Proof.
  apply (read_only_handlers_keep_state (healthy_env 0) "update_ticket"
           (update_ticket (healthy_env 0)) [] sample_store _
           (fst (update_ticket (healthy_env 0) [] sample_store))).
  - cbn. auto.
  - reflexivity.
  - apply surjective_pairing.
Defined.

(** ** From the knowledge-base search to the score *)

(** X23. When the knowledge-base search is answered with a list of
    hits, [knowledge_base_search] sends the query alone and stores the
    hits under [kb.hits]; the score that [solution_evaluation] then
    returns is the scoring rule applied to the number of those hits. *)
Theorem retrieved_hits_drive_score
    (env : Env) (kwargs kwargs' st p : dict) (w w1 : World) (resp : value)
    (hits : list value) :
  dict_get "payload" st = Some (VDict p) ->
  call env (atlas_client env) "knowledge_base_search"
    (VDict [("query", or_none (dict_get "query" p))]) None w = (Ok resp, w1) ->
  get resp "kb_hits" (VList []) = Ok (VList hits) ->
  absent_or_dict "kb" st ->
  absent_or_dict "decision" st ->
  exists s1 s2 : Store,
    knowledge_base_search env kwargs {| state := st; world := w |} = (Ok status_ok, s1) /\
    world s1 = w1 /\
    nested_field "kb" "hits" (state s1) = Some (VList hits) /\
    solution_evaluation env kwargs' s1
    = (Ok (VDict [("score",
                   VInt (spec_score (Z.of_nat (List.length hits)) (is_high st)
                           (jitter_of env w1)))]), s2).
Proof.
  intros Hp Hcall Hhits Hkb Hd.
  assert (Hrun : exists kb : dict,
             knowledge_base_search env kwargs {| state := st; world := w |}
             = (Ok status_ok,
                {| state := dict_set "kb" (VDict (dict_set "hits" (VList hits) kb)) st;
                   world := w1 |})).
  { unfold knowledge_base_search, bind, lift, state_getitem, state_setdefault,
      state_setitem, ret, atlas_call, on_world, or_none in *.
    cbn [state world getitem]. rewrite Hp. cbn [get state world].
    rewrite Hcall, Hhits. cbn [state world].
    destruct Hkb as [Hkb|[kb Hkb]]; rewrite Hkb; cbn [setitem state world].
    - exists []. rewrite dict_set_set_same. reflexivity.
    - exists kb. reflexivity. }
  destruct Hrun as (kb & Hrun). rewrite Hrun.
  cut (exists s2 : Store,
         solution_evaluation env kwargs'
           {| state := dict_set "kb" (VDict (dict_set "hits" (VList hits) kb)) st;
              world := w1 |}
         = (Ok (VDict [("score",
                        VInt (spec_score (Z.of_nat (List.length hits)) (is_high st)
                                (jitter_of env w1)))]), s2)).
  { intros [s2 H2]. eexists. exists s2. split; [reflexivity|]. cbn [state world].
    split; [reflexivity|]. split; [|exact H2].
    unfold nested_field. rewrite dict_get_set_same. apply dict_get_set_same. }
  unfold solution_evaluation, bind, state_get, lift, state_getitem, on_world,
    state_setdefault, state_setitem, ret.
  cbn [state world get]. rewrite dict_get_set_same. cbn [get].
  rewrite dict_get_set_same. cbn [len].
  unfold getitem. rewrite dict_get_set_other by discriminate. rewrite Hp. cbn [get].
  unfold randint. cbn beta iota.
  set (score := spec_score (Z.of_nat (List.length hits)) (is_high st) (jitter_of env w1)).
  assert (Hs : Z.max 0 (Z.min 100
             ((if eq_str match dict_get "priority" p with Some x => x | None => VNone end "HIGH"
               then 70 + Z.min 20 (Z.of_nat (List.length hits) * 10) - 10
               else 70 + Z.min 20 (Z.of_nat (List.length hits) * 10))
              + (-3 + entropy env (draws w1) mod (3 - -3 + 1)))) = score).
  { unfold score, spec_score, clamp, jitter_of, randint, is_high, payload_field.
    rewrite Hp. cbn [fst].
    destruct (dict_get "priority" p) as [v|]; cbn [eq_str];
      [destruct (eq_str v "HIGH")|]; f_equal; f_equal; lia. }
  rewrite Hs. clearbody score. cbn [state world].
  rewrite dict_get_set_other by discriminate.
  destruct Hd as [Hd|[d Hd]]; rewrite Hd; cbn [setitem state world];
    eexists; reflexivity.
Qed.

Lemma retrieved_hits_drive_score_witness :
  exists s1 s2 : Store,
    knowledge_base_search (healthy_env 6) [] sample_store = (Ok status_ok, s1) /\
    solution_evaluation (healthy_env 6) [] s1 = (Ok (VDict [("score", VInt 93)]), s2).
Proof.
  pose (out := call (healthy_env 6) (atlas_client (healthy_env 6)) "knowledge_base_search"
                 (VDict [("query", VStr "invoice INV-9876 is delayed")]) None fresh_world).
  assert (Hcall : out = (Ok (VDict [("kb_hits", VList [VStr "kb-101"; VStr "kb-201"])]),
                         snd out)) by (vm_compute; reflexivity).
  destruct (retrieved_hits_drive_score (healthy_env 6) [] [] (state sample_store)
              sample_input fresh_world (snd out) _ [VStr "kb-101"; VStr "kb-201"]
              eq_refl Hcall eq_refl (or_introl eq_refl) (or_introl eq_refl))
    as (s1 & s2 & H1 & _ & _ & H2).
  exists s1, s2. split; [exact H1|]. rewrite H2. reflexivity.
Defined.
